(** * Crontal demo backend: the RFQ parse/edit pipeline of [backend/server.js]

    A shallow embedding of the four Express handlers of
    [backend/server.js], POST /api/buyer/parse, POST /api/buyer/clarify,
    GET /api/rfq/:id and POST /api/rfqs/:id/quotes, with the pieces of the
    JavaScript platform they rely on:

    - JavaScript values, truthiness, [||], property reads and [?.];
    - [JSON.parse], as a parser of JSON text;
    - the handler as a state-and-exception computation over [rfqStore],
      the uploaded files and the clock, with the extraction service,
      [Date.now()] and the limits of [JSON.stringify] supplied by the
      environment;
    - the plain objects [rfqStore] and [quoteStore], with the prototype
      chain their lookups follow;
    - what [res.json] serializes, and that it can fail.

    The first part holds the definitions, the second the properties: the
    line numbering, malformed prior items, and, where the code departs from
    the specification (absent extraction output, units, record keys,
    identifiers, the store on failure, lookups of inherited names), the
    statement of the specification, an input that refutes it, and what the
    code does instead. *)

From Stdlib Require Import ZArith QArith Qabs String Ascii List Lia.
From stdpp Require Import base option list gmap strings pretty.

Local Open Scope string_scope.

(** ** JavaScript values *)

(** Numbers.  [JSON.parse] produces IEEE doubles; the handlers never compute
    with them (they test them for truthiness and copy them), so a finite
    double is represented by the rational it was read from, except that a
    literal that rounds to zero is stored as zero and a literal that rounds
    beyond the largest double is an infinity. *)
Inductive number : Type :=
| Finite (q : Q)
| Infinite (negative : bool).

(** Objects supplied by the engine that a lookup along the prototype chain
    of a plain object can reach. *)
Inductive native : Type :=
| ObjectPrototype
| BuiltinFunction (name : string).

#[warnings="-register-all"]
Inductive value : Type :=
| VUndefined
| VNull
| VBool (b : bool)
| VNum (n : number)
| VStr (s : string)
| VArr (elements : list value)
| VObj (fields : list (string * value))
| VNative (n : native).

Definition number_is_zero (n : number) : bool :=
  match n with
  | Finite q => Z.eqb (Qnum q) 0%Z
  | Infinite _ => false
  end.

Definition string_is_empty (s : string) : bool :=
  match s with
  | EmptyString => true
  | String _ _ => false
  end.

(** ToBoolean. *)
Definition truthy (v : value) : bool :=
  match v with
  | VUndefined | VNull => false
  | VBool b => b
  | VNum n => negb (number_is_zero n)
  | VStr s => negb (string_is_empty s)
  | VArr _ | VObj _ | VNative _ => true
  end.

(** [a || b] *)
Definition js_or (a b : value) : value := if truthy a then a else b.

(** Own properties of an object literal, in insertion order. *)
Fixpoint lookup_field (k : string) (fields : list (string * value)) : option value :=
  match fields with
  | [] => None
  | (k', v) :: rest => if String.eqb k k' then Some v else lookup_field k rest
  end.

(** Assignment to a property: an existing key keeps its position. *)
Fixpoint set_field (k : string) (v : value) (fields : list (string * value))
  : list (string * value) :=
  match fields with
  | [] => [(k, v)]
  | (k', v') :: rest =>
      if String.eqb k k' then (k', v) :: rest else (k', v') :: set_field k v rest
  end.

Definition field_names (fields : list (string * value)) : list string :=
  map fst fields.

(** ** JSON.parse *)

Module Json.

Local Open Scope Z_scope.

Inductive outcome (A : Type) : Type :=
| Parsed (a : A) (rest : string)
| Malformed
| OutOfFuel.
Arguments Parsed {A} a rest.
Arguments Malformed {A}.
Arguments OutOfFuel {A}.

Definition is_ws (c : ascii) : bool :=
  match c with
  | " "%char | "009"%char | "010"%char | "013"%char => true
  | _ => false
  end.

Fixpoint skip_ws (s : string) : string :=
  match s with
  | String c rest => if is_ws c then skip_ws rest else s
  | EmptyString => s
  end.

Definition digit_of (c : ascii) : option Z :=
  let n := Z.of_N (N_of_ascii c) in
  if (48 <=? n) && (n <=? 57) then Some (n - 48) else None.

Definition hex_of (c : ascii) : option Z :=
  let n := Z.of_N (N_of_ascii c) in
  if (48 <=? n) && (n <=? 57) then Some (n - 48)
  else if (65 <=? n) && (n <=? 70) then Some (n - 55)
  else if (97 <=? n) && (n <=? 102) then Some (n - 87)
  else None.

(** Longest run of decimal digits at the head of [s]: the digits read so
    far as an integer, how many there were, and what follows. *)
Fixpoint digits (acc : Z) (count : Z) (s : string) : Z * Z * string :=
  match s with
  | String c rest =>
      match digit_of c with
      | Some d => digits (10 * acc + d) (count + 1) rest
      | None => (acc, count, s)
      end
  | EmptyString => (acc, count, s)
  end.

(** Half of the smallest subnormal double, and the midpoint between the
    largest double and 2^1024: a literal at or below the first reads as
    zero, one at or above the second reads as an infinity. *)
Definition underflow_bound : Q := Qmake 1 (Z.to_pos (2 ^ 1075)).
Definition overflow_bound : Q := Qmake (2 ^ 1024 - 2 ^ 970) 1.

Definition number_of_literal (negative : bool) (mantissa exponent : Z) : number :=
  let magnitude :=
    if 0 <=? exponent then Qmake (mantissa * 10 ^ exponent) 1
    else Qmake mantissa (Z.to_pos (10 ^ (- exponent))) in
  if Qle_bool magnitude underflow_bound then Finite (Qmake 0 1)
  else if Qle_bool overflow_bound magnitude then Infinite negative
  else Finite (Qred (if negative then Qopp magnitude else magnitude)).

(** [Some r] when [s] is the character [c] followed by [r]. *)
Definition strip (c : ascii) (s : string) : option string :=
  match s with
  | String c' r => if Ascii.eqb c c' then Some r else None
  | EmptyString => None
  end.

(** number ::= '-'? int frac? exp?   with int ::= '0' | [1-9][0-9]* *)
Definition parse_number (s : string) : outcome number :=
  let '(negative, s1) :=
    match strip "-" s with
    | Some r => (true, r)
    | None => (false, s)
    end in
  let int_part :=
    match strip "0" s1 with
    | Some r => Some (0, r)
    | None => let '(n, count, r) := digits 0 0 s1 in
              if 0 <? count then Some (n, r) else None
    end in
  match int_part with
  | None => Malformed
  | Some (n, s2) =>
      let frac_part :=
        match strip "." s2 with
        | Some r =>
            let '(m, count, r') := digits n 0 r in
            if 0 <? count then Some (m, count, r') else None
        | None => Some (n, 0, s2)
        end in
      match frac_part with
      | None => Malformed
      | Some (m, scale, s3) =>
          let exp_digits (sign : Z) (r : string) :=
            let '(e, count, r') := digits 0 0 r in
            if 0 <? count then Some (sign * e, r') else None in
          let exp_part :=
            match strip "e" s3, strip "E" s3 with
            | Some r, _ | None, Some r =>
                match strip "+" r, strip "-" r with
                | Some r', _ => exp_digits 1 r'
                | None, Some r' => exp_digits (-1) r'
                | None, None => exp_digits 1 r
                end
            | None, None => Some (0, s3)
            end in
          match exp_part with
          | None => Malformed
          | Some (e, s4) => Parsed (number_of_literal negative m (e - scale)) s4
          end
      end
  end.

(** Code points are kept as UTF-8 bytes; a lone surrogate written with a
    [\u] escape gets the three-byte form of its number, so that distinct
    JavaScript strings stay distinct. *)
Definition byte (n : Z) : ascii := ascii_of_N (Z.to_N n).

Definition utf8 (cp : Z) : list ascii :=
  if cp <? 128 then [byte cp]
  else if cp <? 2048 then [byte (192 + cp / 64); byte (128 + cp mod 64)]
  else if cp <? 65536 then
    [byte (224 + cp / 4096); byte (128 + (cp / 64) mod 64); byte (128 + cp mod 64)]
  else
    [byte (240 + cp / 262144); byte (128 + (cp / 4096) mod 64);
     byte (128 + (cp / 64) mod 64); byte (128 + cp mod 64)].

Definition hex4 (s : string) : option (Z * string) :=
  match s with
  | String a (String b (String c (String d rest))) =>
      match hex_of a, hex_of b, hex_of c, hex_of d with
      | Some x, Some y, Some z, Some w => Some (4096 * x + 256 * y + 16 * z + w, rest)
      | _, _, _, _ => None
      end
  | _ => None
  end.

Definition push (bytes : list ascii) (acc : list ascii) : list ascii :=
  rev_append bytes acc.

Definition string_of_rev (acc : list ascii) : string :=
  string_of_list_ascii (rev acc).

(** The escapes that stand for one character. *)
Definition simple_escape (e : ascii) : option Z :=
  if Ascii.eqb e "034"%char then Some 34
  else if Ascii.eqb e "\"%char then Some 92
  else if Ascii.eqb e "/"%char then Some 47
  else if Ascii.eqb e "b"%char then Some 8
  else if Ascii.eqb e "f"%char then Some 12
  else if Ascii.eqb e "n"%char then Some 10
  else if Ascii.eqb e "r"%char then Some 13
  else if Ascii.eqb e "t"%char then Some 9
  else None.

(** The characters of a string literal after its opening quote.  [pending]
    holds a high surrogate read from a [\u] escape that may still pair with
    a low surrogate escape right after it. *)
Fixpoint parse_chars (s : string) (pending : option Z) (acc : list ascii)
  : outcome string :=
  let flush := match pending with
               | Some hi => push (utf8 hi) acc
               | None => acc
               end in
  match s with
  | EmptyString => Malformed
  | String c rest =>
      if Ascii.eqb c "034"%char then Parsed (string_of_rev flush) rest
      else if Ascii.eqb c "\"%char then
        match rest with
        | String e rest' =>
            if Ascii.eqb e "u"%char then
              match hex4 rest' with
              | Some (cu, _) =>
                  (* the recursion continues after the four digits, named
                     here as a subterm of [rest'] *)
                  match rest' with
                  | String _ (String _ (String _ (String _ after))) =>
                      if (55296 <=? cu) && (cu <=? 56319) then
                        parse_chars after (Some cu) flush
                      else if (56320 <=? cu) && (cu <=? 57343) then
                        match pending with
                        | Some hi =>
                            parse_chars after None
                              (push (utf8 (65536 + (hi - 55296) * 1024 + (cu - 56320))) acc)
                        | None => parse_chars after None (push (utf8 cu) flush)
                        end
                      else parse_chars after None (push (utf8 cu) flush)
                  | _ => Malformed
                  end
              | None => Malformed
              end
            else
              match simple_escape e with
              | Some b => parse_chars rest' None (byte b :: flush)
              | None => Malformed
              end
        | EmptyString => Malformed
        end
      else if N.ltb (N_of_ascii c) 32 then Malformed
      else parse_chars rest None (c :: flush)
  end.

Definition parse_string (s : string) : outcome string := parse_chars s None [].

Definition expect (word : string) (v : value) (s : string) : outcome value :=
  if String.prefix word s
  then Parsed v (String.substring (String.length word)
                   (String.length s - String.length word) s)
  else Malformed.

(** value ::= object | array | string | number | true | false | null.
    [parse_elements] and [parse_members] start right after the opening
    bracket or after a comma; [first] says that the closing bracket may
    come at once.  A repeated key overwrites the earlier one. *)
Fixpoint parse_value (fuel : nat) (s : string) : outcome value :=
  match fuel with
  | O => OutOfFuel
  | S fuel' =>
      match skip_ws s with
      | EmptyString => Malformed
      | String c rest =>
          if Ascii.eqb c "{"%char then parse_members fuel' true [] rest
          else if Ascii.eqb c "["%char then parse_elements fuel' true [] rest
          else if Ascii.eqb c "034"%char then
            match parse_string rest with
            | Parsed str rest' => Parsed (VStr str) rest'
            | Malformed => Malformed
            | OutOfFuel => OutOfFuel
            end
          else if Ascii.eqb c "t"%char then expect "rue" (VBool true) rest
          else if Ascii.eqb c "f"%char then expect "alse" (VBool false) rest
          else if Ascii.eqb c "n"%char then expect "ull" VNull rest
          else
            match parse_number (String c rest) with
            | Parsed n rest' => Parsed (VNum n) rest'
            | Malformed => Malformed
            | OutOfFuel => OutOfFuel
            end
      end
  end
with parse_elements (fuel : nat) (first : bool) (acc : list value) (s : string)
  : outcome value :=
  match fuel with
  | O => OutOfFuel
  | S fuel' =>
      let element :=
        match parse_value fuel' s with
        | Parsed v rest =>
            match skip_ws rest with
            | String c rest' =>
                if Ascii.eqb c ","%char then parse_elements fuel' false (v :: acc) rest'
                else if Ascii.eqb c "]"%char then Parsed (VArr (rev (v :: acc))) rest'
                else Malformed
            | EmptyString => Malformed
            end
        | Malformed => Malformed
        | OutOfFuel => OutOfFuel
        end in
      match skip_ws s with
      | String c rest =>
          if (first && Ascii.eqb c "]"%char)%bool then Parsed (VArr []) rest
          else element
      | EmptyString => Malformed
      end
  end
with parse_members (fuel : nat) (first : bool) (acc : list (string * value)) (s : string)
  : outcome value :=
  match fuel with
  | O => OutOfFuel
  | S fuel' =>
      match skip_ws s with
      | String c rest =>
          if (first && Ascii.eqb c "}"%char)%bool then Parsed (VObj []) rest
          else if Ascii.eqb c "034"%char then
            match parse_string rest with
            | Parsed key rest1 =>
                match skip_ws rest1 with
                | String c1 rest2 =>
                    if Ascii.eqb c1 ":"%char then
                      match parse_value fuel' rest2 with
                      | Parsed v rest3 =>
                          match skip_ws rest3 with
                          | String c3 rest4 =>
                              if Ascii.eqb c3 ","%char
                              then parse_members fuel' false (set_field key v acc) rest4
                              else if Ascii.eqb c3 "}"%char
                              then Parsed (VObj (set_field key v acc)) rest4
                              else Malformed
                          | EmptyString => Malformed
                          end
                      | Malformed => Malformed
                      | OutOfFuel => OutOfFuel
                      end
                    else Malformed
                | EmptyString => Malformed
                end
            | Malformed => Malformed
            | OutOfFuel => OutOfFuel
            end
          else Malformed
      | EmptyString => Malformed
      end
  end.

Definition fuel_for (s : string) : nat := S (2 * String.length s).

(** [Some v] when [JSON.parse(s)] returns [v], [None] when it throws a
    SyntaxError. *)
Definition parse (s : string) : option value :=
  match parse_value (fuel_for s) s with
  | Parsed v rest =>
      match skip_ws rest with
      | EmptyString => Some v
      | String _ _ => None
      end
  | Malformed | OutOfFuel => None
  end.

End Json.

Definition JSON_parse : string -> option value := Json.parse.

(** ** Exceptions and the handler monad *)

Inductive error_name : Type :=
| SyntaxError | TypeError | RangeError | SystemError | ServiceError.

(** An [Error] object: what [catch (error)] receives and [error.message]
    reads.  The message texts of the engine's own errors vary between
    engine versions; the ones below are representative. *)
Record exception : Type := Exception { name : error_name; message : string }.

Inductive result (A : Type) : Type :=
| Return (a : A)
| Throw (e : exception).
Arguments Return {A} a.
Arguments Throw {A} e.

(** The [rfqStore] object: its own properties and its prototype slot:
    [None] while that still is [Object.prototype], as for every [{}], else
    the fields of the object put in its place. *)
Record Store : Type := MkStore {
  own : gmap string value;
  proto : option (list (string * value))
}.

(** What a handler can change: [rfqStore], the files under [uploads/], and
    how many times the clock has been read. *)
Record State : Type := MkState {
  rfqStore : Store;
  disk : gmap string string;
  ticks : nat
}.

Definition M (A : Type) : Type := State -> result A * State.

Definition ret {A} (a : A) : M A := fun st => (Return a, st).

Definition bind {A B} (m : M A) (k : A -> M B) : M B :=
  fun st =>
    match m st with
    | (Return a, st') => k a st'
    | (Throw e, st') => (Throw e, st')
    end.

Definition throw {A} (n : error_name) (msg : string) : M A :=
  fun st => (Throw (Exception n msg), st).

(** [try { body } catch (error) { handler }]: the state reached when the
    exception was thrown is kept. *)
Definition try_catch {A} (body : M A) (handler : exception -> M A) : M A :=
  fun st =>
    match body st with
    | (Return a, st') => (Return a, st')
    | (Throw e, st') => handler e st'
    end.

Notation "x <- m ;; k" := (bind m (fun x => k))
  (at level 100, m at next level, right associativity).

Definition lift {A} (r : result A) : M A := fun st => (r, st).

(** ** Property reads *)

(** [v.k] for the property names the handlers read ([line_items],
    [item_id], [size], [od_val], ...): none of them is defined on the
    String, Number, Boolean, Array or Object prototypes, so only an own
    property of an object can answer, and reading from [null] or
    [undefined] throws. *)
Definition get (v : value) (k : string) : result value :=
  match v with
  | VUndefined | VNull =>
      Throw (Exception TypeError ("Cannot read properties of null or undefined, reading " ++ k))
  | VObj fields => Return (default VUndefined (lookup_field k fields))
  | _ => Return VUndefined
  end.

(** [v?.k] *)
Definition opt_get (v : value) (k : string) : value :=
  match v with
  | VObj fields => default VUndefined (lookup_field k fields)
  | _ => VUndefined
  end.

(** [o || d] for a form field that is a string when present. *)
Definition field_or (o : option string) (d : string) : string :=
  match o with
  | Some s => if string_is_empty s then d else s
  | None => d
  end.

(** ** The environment of a request *)

Record UploadedFile : Type := MkFile { path : string; mimetype : string }.

(** A multipart form posted to /api/buyer/parse, as multer hands it over
    when no text field is repeated: every field of [req.body] is a string
    when present, [req.files] lists the uploads.  A JSON body, or a form
    that repeats a field, can put other values (numbers, arrays, objects)
    in [req.body]; those requests are outside this record. *)
Record ParseRequest : Type := MkParseRequest {
  text : option string;
  projectName : option string;
  currentLineItems : option string;
  lang : option string;
  rfqId : option string;
  files : list UploadedFile
}.

(** The call [ai.models.generateContent(...)].  The system instruction and
    the prompt are template strings; they are kept as the values that fill
    their holes: the mode chosen by [isEditMode], the language, the request
    text, the project name, the current items appended in edit mode
    (printed there with [JSON.stringify]) and the file parts.  The response
    schema is a constant of the call. *)
Record GenRequest : Type := MkGenRequest {
  g_model : string;
  g_editing : bool;
  g_language : string;
  g_text : string;
  g_project : string;
  g_current_items : option value;
  g_parts : list (string * string)
}.

(** The awaited promise: fulfilled with a response whose [text] is a string
    or undefined, or rejected with an [Error]. *)
Inductive GenOutcome : Type :=
| Fulfilled (response_text : option string)
| Rejected (msg : string).

(** The two calls of [JSON.stringify] in the parse/edit handler: on the
    current items, for the prompt (with an indentation), and on the result,
    inside [res.json]. *)
Inductive stringify_call : Type := PromptItems | ResponseBody.

(** What the handler does not decide: the readings of [Date.now()] in the
    order they are taken, the extraction service, the engine's [x > 0] on
    a string, an array or an object (a conversion to a number, which may
    throw), and the values [JSON.stringify] gives up on.  [JSON.stringify]
    descends into arrays and objects by recursion and builds one string: on
    a value made of parsed JSON it throws only a RangeError, when the value
    is nested deeper than the call stack has room for or its text is longer
    than a string can be.  Where that happens depends on the engine and on
    the call. *)
Record Env : Type := MkEnv {
  now : nat -> Z;
  generateContent : GenRequest -> GenOutcome;
  coerced_positive : value -> result bool;
  unserializable : stringify_call -> value -> bool
}.

Record Response : Type := MkResponse { status : nat; body : value }.

(** ** The platform calls of the handlers *)

Definition set_rfqStore (s : Store) (st : State) : State :=
  MkState s (disk st) (ticks st).

Definition set_disk (d : gmap string string) (st : State) : State :=
  MkState (rfqStore st) d (ticks st).

Section Platform.

Variable env : Env.

(** [Date.now()] *)
Definition Date_now : M Z :=
  fun st => (Return (now env (ticks st)),
             MkState (rfqStore st) (disk st) (S (ticks st))).

(** [JSON.stringify(v)], for what it does to the control flow: it returns
    or throws. *)
Definition stack_overflow : exception :=
  Exception RangeError "Maximum call stack size exceeded".

Definition JSON_stringify (call : stringify_call) (v : value) : M unit :=
  fun st =>
    if unserializable env call v then (Throw stack_overflow, st) else (Return tt, st).

(** [res.json(v)]: the body is serialized before anything is sent. *)
Definition res_json (v : value) : M Response :=
  _ <- JSON_stringify ResponseBody v ;;
  ret (MkResponse 200 v).

(** [fs.readFileSync(path)] and [fs.unlinkSync(path)] *)
Definition readFileSync (p : string) : M string :=
  fun st =>
    match disk st !! p with
    | Some data => (Return data, st)
    | None => (Throw (Exception SystemError ("ENOENT: no such file or directory, open " ++ p)), st)
    end.

Definition unlinkSync (p : string) : M unit :=
  fun st =>
    match disk st !! p with
    | Some _ => (Return tt, set_disk (delete p (disk st)) st)
    | None => (Throw (Exception SystemError ("ENOENT: no such file or directory, unlink " ++ p)), st)
    end.

(** [buffer.toString("base64")] *)
Definition base64_alphabet : string :=
  "ABCDEFGHIJKLMNOPQRSTUVWXYZabcdefghijklmnopqrstuvwxyz0123456789+/".

Definition base64_digit (n : N) : ascii :=
  default "="%char (String.get (N.to_nat n) base64_alphabet).

Fixpoint base64 (data : string) : string :=
  let code (c : ascii) : N := N_of_ascii c in
  match data with
  | String a (String b (String c rest)) =>
      let n := (code a * 65536 + code b * 256 + code c)%N in
      String (base64_digit (n / 262144)) (String (base64_digit ((n / 4096) mod 64))
        (String (base64_digit ((n / 64) mod 64)) (String (base64_digit (n mod 64))
          (base64 rest))))
  | String a (String b EmptyString) =>
      let n := (code a * 65536 + code b * 256)%N in
      String (base64_digit (n / 262144)) (String (base64_digit ((n / 4096) mod 64))
        (String (base64_digit ((n / 64) mod 64)) "="))
  | String a EmptyString =>
      let n := (code a * 65536)%N in
      String (base64_digit (n / 262144)) (String (base64_digit ((n / 4096) mod 64)) "==")
  | EmptyString => EmptyString
  end.

(** [fileToGenerativePart(path, mimeType)]: the pair (data, mimeType) of
    the [inlineData] record. *)
Definition fileToGenerativePart (p : string) (mimeType : string) : M (string * string) :=
  data <- readFileSync p ;;
  ret (base64 data, mimeType).

(** [x > 0] *)
Definition positive (x : value) : result bool :=
  match x with
  | VUndefined | VNull => Return false
  | VBool b => Return b
  | VNum (Finite q) => Return (0 <? Qnum q)%Z
  | VNum (Infinite negative) => Return (negb negative)
  | VStr _ | VArr _ | VObj _ | VNative _ => coerced_positive env x
  end.

(** [v.length > 0] *)
Definition length_positive (v : value) : result bool :=
  match v with
  | VUndefined | VNull =>
      Throw (Exception TypeError "Cannot read properties of null, reading length")
  | VArr elements => Return (negb (Nat.eqb (length elements) 0))
  | VStr s => Return (negb (string_is_empty s))
  | VObj fields =>
      match lookup_field "length" fields with
      | Some x => positive x
      | None => Return false
      end
  | VBool _ | VNum _ | VNative _ => Return false
  end.

(** ** rfqStore *)

(** The properties every plain object inherits from [Object.prototype]. *)
Definition object_prototype_methods : list string :=
  [ "constructor"; "hasOwnProperty"; "isPrototypeOf"; "propertyIsEnumerable";
    "toLocaleString"; "toString"; "valueOf"; "__defineGetter__";
    "__defineSetter__"; "__lookupGetter__"; "__lookupSetter__" ].

Definition inherited_from_object (receiver_proto : option (list (string * value)))
    (k : string) : value :=
  if String.eqb k "__proto__" then
    match receiver_proto with
    | Some fields => VObj fields
    | None => VNative ObjectPrototype
    end
  else if existsb (String.eqb k) object_prototype_methods
  then VNative (BuiltinFunction k)
  else VUndefined.

(** [rfqStore[k]]: an own property, else the prototype chain. *)
Definition store_read (s : Store) (k : string) : value :=
  match own s !! k with
  | Some v => v
  | None =>
      match proto s with
      | Some fields =>
          match lookup_field k fields with
          | Some v => v
          | None => inherited_from_object (proto s) k
          end
      | None => inherited_from_object (proto s) k
      end
  end.

(** [rfqStore[k] = {...fields}]: the key [__proto__] reaches the setter
    inherited from [Object.prototype], which replaces the prototype of
    [rfqStore]; any other key becomes (or updates) an own property. *)
Definition store_write (s : Store) (k : string) (fields : list (string * value)) : Store :=
  if String.eqb k "__proto__" then MkStore (own s) (Some fields)
  else MkStore (<[k := VObj fields]> (own s)) (proto s).

End Platform.

(** ** POST /api/buyer/parse *)

Section Handlers.

Variable env : Env.

(** [let currentItems = []; if (currentLineItems) { try { currentItems =
    JSON.parse(currentLineItems); } catch (e) {} }] *)
Definition current_items (req : ParseRequest) : value :=
  match currentLineItems req with
  | Some s =>
      if string_is_empty s then VArr []
      else match JSON_parse s with
           | Some v => v
           | None => VArr []
           end
  | None => VArr []
  end.

(** The request sent to the extraction service, from the form, the mode
    and the file parts. *)
Definition gen_request (req : ParseRequest) (isEditMode : bool)
    (parts : list (string * string)) : GenRequest :=
  {| g_model := "gemini-2.5-flash";
     g_editing := isEditMode;
     g_language := field_or (lang req) "en";
     g_text := default "undefined" (text req);
     g_project := field_or (projectName req) "N/A";
     g_current_items := if isEditMode then Some (current_items req) else None;
     g_parts := parts |}.

(** [for (const file of files) { parts.push(fileToGenerativePart(...));
    fs.unlinkSync(file.path); }] *)
Fixpoint process_files (uploads : list UploadedFile) : M (list (string * string)) :=
  match uploads with
  | [] => ret []
  | file :: rest =>
      part <- fileToGenerativePart (path file) (mimetype file) ;;
      _ <- unlinkSync (path file) ;;
      parts <- process_files rest ;;
      ret (part :: parts)
  end.

(** [const response = await ...] once the promise has settled, then
    [response.text]: a rejection is thrown at the [await]. *)
Definition settle (outcome : GenOutcome) : M (option string) :=
  match outcome with
  | Fulfilled response_text => ret response_text
  | Rejected msg => throw ServiceError msg
  end.

(** [JSON.parse(s)] where a SyntaxError propagates *)
Definition JSON_parse_or_throw (s : string) : M value :=
  match JSON_parse s with
  | Some v => ret v
  | None => throw SyntaxError "Unexpected token in JSON"
  end.

(** [`L${Date.now()}-${idx}`] *)
Definition minted_id (t : Z) (idx : nat) : string :=
  "L" ++ pretty t ++ "-" ++ pretty idx.

(** [{ value: li.size?.X_val, unit: li.size?.X_unit }] *)
Definition dimension (size : value) (val_key unit_key : string) : value :=
  VObj [("value", opt_get size val_key); ("unit", opt_get size unit_key)].

Definition number_of_nat (n : nat) : value := VNum (Finite (inject_Z (Z.of_nat n))).

(** The object literal of the callback, once [item_id] is resolved. *)
Definition item_record (item_id li : value) (idx : nat) : value :=
  VObj
    [("item_id", item_id);
     ("line", number_of_nat (idx + 1));
     ("description", js_or (opt_get li "description") (VStr EmptyString));
     ("material_grade", js_or (opt_get li "material_grade") (VStr EmptyString));
     ("size", VObj [("outer_diameter", dimension (opt_get li "size") "od_val" "od_unit");
                    ("wall_thickness", dimension (opt_get li "size") "wt_val" "wt_unit");
                    ("length", dimension (opt_get li "size") "len_val" "len_unit")]);
     ("quantity", opt_get li "quantity");
     ("uom", opt_get li "uom")].

(** The callback of [.map((li, idx) => ...)].  Reading [li.item_id] throws
    when [li] is null; once it has been read the other reads of [li] cannot
    throw, and [Date.now()] is read only when the identifier is falsy. *)
Definition line_item (li : value) (idx : nat) : M value :=
  raw_id <- lift (get li "item_id") ;;
  item_id <- (if truthy raw_id then ret raw_id
              else t <- Date_now env ;; ret (VStr (minted_id t idx))) ;;
  ret (item_record item_id li idx).

Fixpoint map_from (idx : nat) (elements : list value) : M (list value) :=
  match elements with
  | [] => ret []
  | li :: rest =>
      item <- line_item li idx ;;
      items <- map_from (S idx) rest ;;
      ret (item :: items)
  end.

(** [(parsedData.line_items || []).map(...)]: only an array has [map]. *)
Definition map_line_items (line_items : value) : M (list value) :=
  match js_or line_items (VArr []) with
  | VArr elements => map_from 0 elements
  | _ => throw TypeError "(parsedData.line_items || []).map is not a function"
  end.

(** [const items = (parsedData.line_items || []).map(...)] *)
Definition reconcile_items (parsedData : value) : M (list value) :=
  line_items <- lift (get parsedData "line_items") ;;
  map_line_items line_items.

(** [s.slice(-n)] *)
Definition slice_last (n : nat) (s : string) : string :=
  String.substring (String.length s - n) n s.

(** [req.body.rfqId || `RFQ-${Date.now().toString().slice(-4)}`] *)
Definition choose_rfq_id (req : ParseRequest) : M string :=
  match rfqId req with
  | Some s =>
      if string_is_empty s
      then t <- Date_now env ;; ret ("RFQ-" ++ slice_last 4 (pretty t))
      else ret s
  | None => t <- Date_now env ;; ret ("RFQ-" ++ slice_last 4 (pretty t))
  end.

(** The [commercial] record of the result. *)
Definition commercial_of (parsedData_commercial : value) : value :=
  VObj [("destination", js_or (opt_get parsedData_commercial "destination") (VStr EmptyString));
        ("incoterm", js_or (opt_get parsedData_commercial "incoterm") (VStr EmptyString));
        ("paymentTerm", js_or (opt_get parsedData_commercial "payment_terms") (VStr EmptyString));
        ("otherRequirements",
          js_or (opt_get parsedData_commercial "other_requirements") (VStr EmptyString))].

(** [rfqStore[result.rfq_id] = result] *)
Definition store_result (id : string) (result : list (string * value)) : M unit :=
  fun st => (Return tt, set_rfqStore (store_write (rfqStore st) id result) st).

(** [if (isEditMode) { promptText += `...${JSON.stringify(currentItems,
    null, 2)}...`; }] *)
Definition append_current_items (isEditMode : bool) (currentItems : value) : M unit :=
  if isEditMode then JSON_stringify env PromptItems currentItems else ret tt.

(** The stretch of the [try] block that runs before the [await]: the mode,
    the prompt, the file parts, and the request handed to the extraction
    service. *)
Definition before_await (req : ParseRequest) : M GenRequest :=
  isEditMode <- lift (length_positive env (current_items req)) ;;
  _ <- append_current_items isEditMode (current_items req) ;;
  parts <- process_files (files req) ;;
  ret (gen_request req isEditMode parts).

(** The stretch that runs once the promise has settled, up to the [result]
    object: its identifier and its fields.  [parsedData] is not null once
    [parsedData.line_items] has been read, so the later reads of it cannot
    throw. *)
Definition after_await (req : ParseRequest) (outcome : GenOutcome)
  : M (string * list (string * value)) :=
  response_text <- settle outcome ;;
  parsedData <- JSON_parse_or_throw (field_or response_text "{}") ;;
  items <- reconcile_items parsedData ;;
  id <- choose_rfq_id req ;;
  ret (id,
       [("rfq_id", VStr id);
        ("project_name", opt_get parsedData "project_name");
        ("commercial", commercial_of (opt_get parsedData "commercial"));
        ("line_items", VArr items)]).

(** The [try] block up to the [result] object, for a request that is
    served alone. *)
Definition build_result (req : ParseRequest) : M (string * list (string * value)) :=
  g <- before_await req ;;
  after_await req (generateContent env g).

(** The whole [try] block: build the result, [rfqStore[result.rfq_id] =
    result], [res.json(result)].  The assignment comes first: when
    [res.json] throws, the result is already in [rfqStore]. *)
Definition parse_pipeline (req : ParseRequest) : M Response :=
  result <- build_result req ;;
  _ <- store_result (fst result) (snd result) ;;
  res_json env (VObj (snd result)).

(** [res.status(500).json({ error: error.message })] *)
Definition error_response (error : exception) : Response :=
  MkResponse 500 (VObj [("error", VStr (message error))]).

Definition parse_endpoint (req : ParseRequest) : M Response :=
  try_catch (parse_pipeline req) (fun error => ret (error_response error)).

(** The same handler when other handlers run while it awaits the
    extraction service: [others] is what they do to the state meanwhile. *)
Definition parse_endpoint_among (others : State -> State) (req : ParseRequest)
  : M Response :=
  try_catch
    (g <- before_await req ;;
     _ <- (fun st => (Return tt, others st)) ;;
     result <- after_await req (generateContent env g) ;;
     _ <- store_result (fst result) (snd result) ;;
     res_json env (VObj (snd result)))
    (fun error => ret (error_response error)).

(** ** GET /api/rfq/:id *)

Definition not_found : Response :=
  MkResponse 404 (VObj [("error", VStr "Not found")]).

Definition get_rfq (id : string) : M Response :=
  fun st =>
    let rfq := store_read (rfqStore st) id in
    if truthy rfq then (Return (MkResponse 200 rfq), st)
    else (Return not_found, st).

End Handlers.

(** ** What [res.json] puts on the wire *)

(** The tree [JSON.stringify] prints, [None] where it prints nothing: a
    property whose value is undefined or a function is left out, an
    undefined array element and an infinite number print as null. *)
Fixpoint serialized (v : value) : option value :=
  match v with
  | VUndefined => None
  | VNative (BuiltinFunction _) => None
  | VNative ObjectPrototype => Some (VObj [])
  | VNum (Infinite _) => Some VNull
  | VNull | VBool _ | VNum (Finite _) | VStr _ => Some v
  | VArr elements =>
      Some (VArr ((fun x => default VNull (serialized x)) <$> elements))
  | VObj fields =>
      Some (VObj ((fix members (l : list (string * value)) : list (string * value) :=
                     match l with
                     | [] => []
                     | (k, x) :: rest =>
                         match serialized x with
                         | Some y => (k, y) :: members rest
                         | None => members rest
                         end
                     end) fields))
  end.

(** The properties of an object that are printed. *)
Definition kept (fields : list (string * value)) : list (string * value) :=
  omap (fun kv => match serialized (snd kv) with
                  | Some y => Some (fst kv, y)
                  | None => None
                  end) fields.

Arguments kept : simpl never.


(** ** Reading records *)

Definition keys (v : value) : list string :=
  match v with
  | VObj fields => field_names fields
  | _ => []
  end.

Definition line_items_of (rfq : value) : list value :=
  match opt_get rfq "line_items" with
  | VArr items => items
  | _ => []
  end.

Definition item_id_of (item : value) : value := opt_get item "item_id".
Definition line_of (item : value) : value := opt_get item "line".

(** A Dimension of a produced line item, and its two fields. *)
Definition dimension_of (item : value) (field : string) : value :=
  opt_get (opt_get item "size") field.
Definition unit_of (dim : value) : value := opt_get dim "unit".
Definition value_of (dim : value) : value := opt_get dim "value".

(** The raw items the mapping runs over, [parsedData.line_items || []],
    and a raw size entry of one of them, [li.size?.key]. *)
Definition raw_items (parsedData : value) : list value :=
  match js_or (opt_get parsedData "line_items") (VArr []) with
  | VArr elements => elements
  | _ => []
  end.

Definition raw_size (li : value) (key : string) : value :=
  opt_get (opt_get li "size") key.

(** The three Dimension fields with the raw keys they are filled from. *)
Definition dimension_sources : list (string * (string * string)) :=
  [("outer_diameter", ("od_val", "od_unit"));
   ("wall_thickness", ("wt_val", "wt_unit"));
   ("length", ("len_val", "len_unit"))].

(** How the callback resolves an identifier: the raw one when truthy, a
    minted one otherwise. *)
Definition resolved (li : value) (idx : nat) (id : value) : Prop :=
  (truthy (item_id_of li) = true /\ id = item_id_of li) \/
  (truthy (item_id_of li) = false /\ exists t, id = VStr (minted_id t idx)).

(** Strings without the character [-], as the decimal form of an index. *)
Definition dashless (s : string) : Prop :=
  forall a b, s <> a ++ String "-"%char b.

Definition is_nullish (v : value) : bool :=
  match v with
  | VUndefined | VNull => true
  | _ => false
  end.

(** The parsed extraction outputs the mapping accepts: not null, with a
    [line_items] that is falsy or an array without null entries. *)
Definition mappable (parsedData : value) : bool :=
  negb (is_nullish parsedData) &&
  match js_or (opt_get parsedData "line_items") (VArr []) with
  | VArr elements => forallb (fun li => negb (is_nullish li)) elements
  | _ => false
  end.

Definition empty_store : Store := MkStore ∅ None.
Definition initial_state : State := MkState empty_store ∅ 0.

(** A server whose store never received the key [__proto__]. *)
Definition pristine (s : Store) : Prop := proto s = None.

(** [rfqStore] never has an own property named [__proto__]: assigning to
    that name goes to the inherited setter. *)
Definition no_own_proto (s : Store) : Prop := own s !! "__proto__" = None.

Definition inherited_name (k : string) : bool :=
  String.eqb k "__proto__" || existsb (String.eqb k) object_prototype_methods.

(** JSON text for examples: [quoted s] is [s] between double quotes. *)
Definition quoted (s : string) : string :=
  String "034"%char (s ++ String "034"%char EmptyString).

(** A computation that leaves [rfqStore] as it found it, however it ends. *)
Definition keeps_store {A} (m : M A) : Prop :=
  forall st r st', m st = (r, st') -> rfqStore st' = rfqStore st.

(** ** POST /api/rfqs/:id/quotes *)

(** [quoteStore[id]]: the own properties of [quoteStore] are the arrays the
    handler put there; any other read goes to [Object.prototype]. *)
Definition quote_read (quoteStore : gmap string (list value)) (id : string) : value :=
  match quoteStore !! id with
  | Some quotes => VArr quotes
  | None => inherited_from_object None id
  end.

Definition quote_accepted : Response := MkResponse 200 (VObj [("success", VBool true)]).

(** The handler has no [try]: an exception leaves it.  [if (!quoteStore[id])
    quoteStore[id] = []; quoteStore[id].push(quote); res.json({success:
    true})], where only an array has [push]. *)
Definition submit_quote (id : string) (quote : value)
    (quoteStore : gmap string (list value))
  : result Response * gmap string (list value) :=
  let initialised :=
    if truthy (quote_read quoteStore id) then quoteStore else <[id := []]> quoteStore in
  match initialised !! id with
  | Some quotes => (Return quote_accepted, <[id := (quotes ++ [quote])%list]> initialised)
  | None =>
      (Throw (Exception TypeError "quoteStore[id].push is not a function"), initialised)
  end.

(** A history of submissions, served one after the other. *)
Fixpoint submit_all (history : list (string * value))
    (quoteStore : gmap string (list value)) : gmap string (list value) :=
  match history with
  | [] => quoteStore
  | (id, quote) :: rest => submit_all rest (snd (submit_quote id quote quoteStore))
  end.

(** The quotes held for an identifier, none when it has no entry. *)
Definition quotes_of (quoteStore : gmap string (list value)) (id : string) : list value :=
  default [] (quoteStore !! id).

(** The quotes a history submitted for an identifier, in arrival order. *)
Definition submitted_for (id : string) (history : list (string * value)) : list value :=
  snd <$> filter (fun entry => fst entry = id) history.

(** [quoteStore] has no own property under a name of [Object.prototype]. *)
Definition no_inherited_keys (quoteStore : gmap string (list value)) : Prop :=
  forall id, inherited_name id = true -> quoteStore !! id = None.

(** ** POST /api/buyer/clarify *)

(** What ToString prints, with the digits of a number left as the number. *)
Inductive piece : Type :=
| Text (s : string)
| Digits (n : number).

(** ToString, as a template string applies it to a value read from a JSON
    body.  An array prints its elements joined by commas, null and
    undefined elements as nothing; an object prints as [[object Object]]
    unless it has an own [toString] property, which (not being a function)
    leaves no way to convert it and throws. *)
Fixpoint to_string (v : value) : result (list piece) :=
  match v with
  | VUndefined => Return [Text "undefined"]
  | VNull => Return [Text "null"]
  | VBool b => Return [Text (if b then "true" else "false")]
  | VNum n => Return [Digits n]
  | VStr s => Return [Text s]
  | VArr elements =>
      (fix join (l : list value) (first : bool) : result (list piece) :=
         match l with
         | [] => Return []
         | x :: rest =>
             let printed :=
               match x with
               | VUndefined | VNull => Return []
               | _ => to_string x
               end in
             match printed with
             | Throw e => Throw e
             | Return a =>
                 match join rest false with
                 | Throw e => Throw e
                 | Return b => Return ((if first then [] else [Text ","]) ++ a ++ b)%list
                 end
             end
         end) elements true
  | VObj fields =>
      match lookup_field "toString" fields with
      | Some _ => Throw (Exception TypeError "Cannot convert object to primitive value")
      | None => Return [Text "[object Object]"]
      end
  | VNative ObjectPrototype => Return [Text "[object Object]"]
  | VNative (BuiltinFunction k) => Return [Text ("function " ++ k ++ "() { [native code] }")]
  end.

(** The call to the summarizer: the language of the system instruction,
    the two fields of [rfqSummary] and the user action of the prompt. *)
Record ClarifyRequest : Type := MkClarifyRequest {
  c_language : list piece;
  c_item_count : nat;
  c_items_sample : list (list piece);
  c_user_action : list piece
}.

Definition clarify_fallback : Response :=
  MkResponse 200 (VObj [("message", VStr "I've updated the table. Please review the details.")]).

(** [res.json({ message: response.text })] *)
Definition message_response (response_text : option string) : Response :=
  MkResponse 200 (VObj [("message", match response_text with
                                    | Some t => VStr t
                                    | None => VUndefined
                                    end)]).

Section Clarify.

Variable summarize : ClarifyRequest -> GenOutcome.

(** [`${i.quantity} ${i.uom} ${i.description}`] *)
Definition sample_line (i : value) : M (list piece) :=
  quantity <- lift (get i "quantity") ;;
  q <- lift (to_string quantity) ;;
  u <- lift (to_string (opt_get i "uom")) ;;
  d <- lift (to_string (opt_get i "description")) ;;
  ret (q ++ [Text " "] ++ u ++ [Text " "] ++ d)%list.

Fixpoint sample_lines (items : list value) : M (list (list piece)) :=
  match items with
  | [] => ret []
  | i :: rest =>
      line <- sample_line i ;;
      lines <- sample_lines rest ;;
      ret (line :: lines)
  end.

(** [{ item_count: rfq.line_items.length, items_sample:
    rfq.line_items.slice(0, 3).map(...) }]: only an array has both [slice]
    and, on the slice, [map]. *)
Definition clarify_summary (rfq : value) : M (nat * list (list piece)) :=
  line_items <- lift (get rfq "line_items") ;;
  match line_items with
  | VArr items =>
      samples <- sample_lines (take 3 items) ;;
      ret (length items, samples)
  | VUndefined | VNull =>
      throw TypeError "Cannot read properties of undefined, reading length"
  | _ => throw TypeError "rfq.line_items.slice(...).map is not a function"
  end.

(** The body of the [try] block of the handler; [body] is [req.body]. *)
Definition clarify_pipeline (body : value) : M Response :=
  rfq <- lift (get body "rfq") ;;
  language <- lift (to_string (js_or (opt_get body "lang") (VStr "en"))) ;;
  summary <- clarify_summary rfq ;;
  action <- lift (to_string (opt_get body "userMessage")) ;;
  response_text <-
    settle (summarize (MkClarifyRequest language (fst summary) (snd summary) action)) ;;
  ret (message_response response_text).

Definition clarify_endpoint (body : value) : M Response :=
  try_catch (clarify_pipeline body) (fun _ => ret clarify_fallback).

End Clarify.

(** ** Files and the clock *)

(** A computation that leaves the files on disk as it found them. *)
Definition keeps_disk {A} (m : M A) : Prop :=
  forall st r st', m st = (r, st') -> disk st' = disk st.

(** A computation that changes nothing: no store, no file, no clock read. *)
Definition stateless {A} (m : M A) : Prop :=
  forall st r st', m st = (r, st') -> st' = st.

(** One sample line is the three fields of the item, printed and separated
    by spaces. *)
Definition sample_of (i : value) (line : list piece) : Prop :=
  is_nullish i = false /\
  exists q u d,
    to_string (opt_get i "quantity") = Return q /\
    to_string (opt_get i "uom") = Return u /\
    to_string (opt_get i "description") = Return d /\
    line = (q ++ [Text " "] ++ u ++ [Text " "] ++ d)%list.

(** A body with the three fields the clarify handler reads. *)
Definition clarify_body (rfq userMessage lang : value) : value :=
  VObj [("rfq", rfq); ("userMessage", userMessage); ("lang", lang)].

(** [req.body.rfqId] is falsy: the field is missing or empty. *)
Definition without_rfq_id (req : ParseRequest) : bool :=
  match rfqId req with
  | Some s => string_is_empty s
  | None => true
  end.

(** ** Example requests *)

(** How deep a value is nested: 0 for a primitive, one more than its
    deepest member for an array or an object. *)
Fixpoint nesting (v : value) : N :=
  match v with
  | VArr elements =>
      N.succ ((fix deepest (l : list value) : N :=
                 match l with
                 | [] => 0%N
                 | x :: rest => N.max (nesting x) (deepest rest)
                 end) elements)
  | VObj fields =>
      N.succ ((fix deepest (l : list (string * value)) : N :=
                 match l with
                 | [] => 0%N
                 | (_, x) :: rest => N.max (nesting x) (deepest rest)
                 end) fields)
  | _ => 0%N
  end.

(** An engine whose [JSON.stringify] has room for [room] levels of nesting
    at either call, and no other limit. *)
Definition room_for (room : N) : stringify_call -> value -> bool :=
  fun _ v => (room <? nesting v)%N.

Definition engine_room : N := 100000.

(** An environment whose clock always reads the same millisecond, whose
    extraction service answers every request with [response_text], and
    whose [JSON.stringify] has room for [engine_room] levels. *)
Definition answering (response_text : option string) : Env :=
  MkEnv (fun _ => 1700000000123%Z) (fun _ => Fulfilled response_text)
        (fun _ => Return false) (room_for engine_room).

(** A form with a request text only, and one that also sends current
    line items. *)
Definition creating (t : string) : ParseRequest :=
  MkParseRequest (Some t) None None None None [].

Definition editing (t current : string) : ParseRequest :=
  MkParseRequest (Some t) None (Some current) None None [].

(** [{"line_items":[{"item_id":"a"},{"quantity":5}]}] *)
Definition two_items_text : string :=
  "{" ++ quoted "line_items" ++ ":[{" ++ quoted "item_id" ++ ":" ++ quoted "a" ++ "},{"
      ++ quoted "quantity" ++ ":5}]}".

(** [{"line_items":[{"item_id":"a"},{"item_id":"a"}]}] *)
Definition duplicate_ids_text : string :=
  "{" ++ quoted "line_items" ++ ":[{" ++ quoted "item_id" ++ ":" ++ quoted "a" ++ "},{"
      ++ quoted "item_id" ++ ":" ++ quoted "a" ++ "}]}".

(** [{"line_items":[{"item_id":"zzz"},{"item_id":"zzz"}]}] *)
Definition unmatched_ids_text : string :=
  "{" ++ quoted "line_items" ++ ":[{" ++ quoted "item_id" ++ ":" ++ quoted "zzz" ++ "},{"
      ++ quoted "item_id" ++ ":" ++ quoted "zzz" ++ "}]}".

(** [[{"item_id":"a"}]] *)
Definition one_prior_item_text : string :=
  "[{" ++ quoted "item_id" ++ ":" ++ quoted "a" ++ "}]".

(** [{"line_items":[{"size":{"od_val":10,"od_unit":"furlong"}}]}] *)
Definition furlong_text : string :=
  "{" ++ quoted "line_items" ++ ":[{" ++ quoted "size" ++ ":{" ++ quoted "od_val" ++ ":10,"
      ++ quoted "od_unit" ++ ":" ++ quoted "furlong" ++ "}}]}".


(** [[[...[]...]]]: valid JSON, [depth] arrays deep. *)
Definition deep_items_text (depth : N) : string :=
  N.iter depth (String "["%char) (N.iter depth (String "]"%char) EmptyString).

(** What [JSON.parse] makes of [furlong_text], and the same output with
    the unit [in]. *)
Definition sized_output (unit : string) : value :=
  VObj [("line_items",
         VArr [VObj [("size", VObj [("od_val", VNum (Finite (inject_Z 10)));
                                    ("od_unit", VStr unit)])]])].

Definition furlong_output : value := sized_output "furlong".
Definition inch_output : value := sized_output "in".

(** ** The statements of the specification that the code departs from

    Each is written here as the specification words it, over the
    definitions above, to be compared with what the handlers do. *)

Module Claimed.

(** The closed normalization target set of a Dimension unit, and the
    aliases the specification names. *)
Definition closed_unit_set : list string := ["mm"; "m"; "in"; "ft"; "pcs"].
Definition known_aliases : list string := ["inches"; "millimeter"].

Definition unit_normalized (u : value) : Prop :=
  u = VUndefined \/ exists s, u = VStr s /\ In s closed_unit_set.

(** The expected record shape of an extraction output: a record with a
    sequence of line items. *)
Definition expected_shape (v : value) : Prop :=
  exists fields items,
    v = VObj fields /\ lookup_field "line_items" fields = Some (VArr items).

Definition malformed (response_text : option string) : Prop :=
  match response_text with
  | None => True
  | Some t =>
      match JSON_parse t with
      | None => True
      | Some v => ~ expected_shape v
      end
  end.

(** An absent or malformed extraction output fails the request and
    nothing is stored. *)
Definition malformed_output_fails : Prop :=
  forall env req st response_text,
    (forall g, generateContent env g = Fulfilled response_text) ->
    malformed response_text ->
    exists resp st',
      parse_endpoint env req st = (Return resp, st') /\
      status resp = 500 /\ rfqStore st' = rfqStore st.


(** The unit of every produced Dimension is unset or in the closed set. *)
Definition units_normalized : Prop :=
  forall env parsedData st items st',
    reconcile_items env parsedData st = (Return items, st') ->
    forall item field,
      In item items ->
      In field ["outer_diameter"; "wall_thickness"; "length"] ->
      unit_normalized (unit_of (dimension_of item field)).

(** An unrecognized raw unit keeps the value and leaves the unit unset. *)
Definition unknown_unit_unset : Prop :=
  forall env parsedData st items st' i li item field val_key unit_key s,
    reconcile_items env parsedData st = (Return items, st') ->
    raw_items parsedData !! i = Some li ->
    items !! i = Some item ->
    In (field, (val_key, unit_key)) dimension_sources ->
    raw_size li unit_key = VStr s ->
    ~ In s closed_unit_set -> ~ In s known_aliases ->
    value_of (dimension_of item field) = raw_size li val_key /\
    unit_of (dimension_of item field) = VUndefined.



(** The identifiers of the prior items of a request. *)
Definition prior_ids (req : ParseRequest) : list value :=
  match current_items req with
  | VArr prior => map item_id_of prior
  | _ => []
  end.

(** With prior items, an extracted identifier that matches a prior one is
    kept, and any other extracted item gets a minted identifier that no
    other item of the result carries. *)
Definition identity_resolved_against_prior : Prop :=
  forall env req st response_text parsedData resp st',
    prior_ids req <> [] ->
    (forall g, generateContent env g = Fulfilled response_text) ->
    JSON_parse (field_or response_text "{}") = Some parsedData ->
    parse_endpoint env req st = (Return resp, st') ->
    status resp = 200 ->
    forall i li item,
      raw_items parsedData !! i = Some li ->
      line_items_of (body resp) !! i = Some item ->
      (In (item_id_of li) (prior_ids req) -> item_id_of item = item_id_of li) /\
      (~ In (item_id_of li) (prior_ids req) ->
       (exists t, item_id_of item = VStr (minted_id t i)) /\
       forall j other, j <> i -> line_items_of (body resp) !! j = Some other ->
                       item_id_of other <> item_id_of item).

(** The identifiers of a produced list are pairwise distinct. *)
Definition item_ids_distinct : Prop :=
  forall env parsedData st items st',
    reconcile_items env parsedData st = (Return items, st') ->
    NoDup (map item_id_of items).

End Claimed.

(** ** Values that JSON text can denote *)



(** * Facts about JSON.parse *)

Module JsonFacts.
Import Json.

Ltac break_match :=
  match goal with
  | |- context [match ?x with _ => _ end] => destruct x eqn:?
  | H : context [match ?x with _ => _ end] |- _ => destruct x eqn:?
  end.

Lemma skip_ws_length s : String.length (skip_ws s) <= String.length s.
Proof.
  induction s as [|c s IH]; simpl; [lia|].
  destruct (is_ws c); simpl; lia.
Qed.

Lemma skip_ws_cons s c rest :
  skip_ws s = String c rest -> S (String.length rest) <= String.length s.
Proof.
  intros H. pose proof (skip_ws_length s) as Hle. rewrite H in Hle. exact Hle.
Qed.

Lemma digits_length s : forall acc count n k r,
  digits acc count s = (n, k, r) -> String.length r <= String.length s.
Proof.
  induction s as [|c s IH]; simpl; intros acc count n k r H.
  - inversion H; subst; simpl; lia.
  - destruct (digit_of c).
    + apply IH in H. lia.
    + inversion H; subst; simpl; lia.
Qed.

Lemma strip_length c s r :
  strip c s = Some r -> S (String.length r) <= String.length s.
Proof.
  destruct s as [|c' s]; simpl; [discriminate|].
  destruct (Ascii.eqb c c'); [|discriminate].
  intros H; inversion H; subst; lia.
Qed.

Lemma parse_number_length s n r :
  parse_number s = Parsed n r -> String.length r <= String.length s.
Proof.
  unfold parse_number. intros H.
  repeat (break_match; try discriminate; simplify_eq);
    repeat match goal with
           | H : digits _ _ _ = _ |- _ => apply digits_length in H
           | H : strip _ _ = Some _ |- _ => apply strip_length in H
           end; lia.
Qed.

Lemma parse_number_fuel s : parse_number s <> OutOfFuel.
Proof.
  unfold parse_number.
  repeat (break_match; try discriminate; simplify_eq).
Qed.

Lemma parse_chars_length n : forall s pending acc str r,
  String.length s <= n ->
  parse_chars s pending acc = Parsed str r ->
  String.length r <= String.length s.
Proof.
  induction n as [|n IH]; intros s pending acc str r Hn H.
  - destruct s; simpl in *; [discriminate | lia].
  - destruct s as [|c rest]; simpl in H; [discriminate|].
    repeat (break_match; try discriminate; simplify_eq; simpl in *);
      try lia;
      match goal with
      | H : parse_chars _ _ _ = Parsed _ _ |- _ => apply IH in H; simpl in *; lia
      end.
Qed.

Lemma parse_chars_fuel n : forall s pending acc,
  String.length s <= n -> parse_chars s pending acc <> OutOfFuel.
Proof.
  induction n as [|n IH]; intros s pending acc Hn.
  - destruct s; simpl in *; [discriminate | lia].
  - destruct s as [|c rest]; simpl; [discriminate|].
    repeat (break_match; try discriminate; simplify_eq; simpl in *);
      apply IH; simpl in *; lia.
Qed.

Lemma parse_string_length s str r :
  parse_string s = Parsed str r -> String.length r <= String.length s.
Proof. apply (parse_chars_length (String.length s)); lia. Qed.

Lemma parse_string_fuel s : parse_string s <> OutOfFuel.
Proof. apply (parse_chars_fuel (String.length s)); lia. Qed.

Lemma substring_length s : forall n m,
  String.length (String.substring n m s) <= String.length s.
Proof.
  induction s as [|c s IH]; intros [|n] [|m]; simpl; try lia.
  - specialize (IH 0 m). lia.
  - specialize (IH n 0). lia.
  - specialize (IH n (S m)). lia.
Qed.

Lemma expect_length word v s v' r :
  expect word v s = Parsed v' r -> String.length r <= String.length s.
Proof.
  unfold expect. destruct (String.prefix word s); [|discriminate].
  intros H; inversion H; subst. apply substring_length.
Qed.

Lemma expect_fuel word v s : expect word v s <> OutOfFuel.
Proof. unfold expect. destruct (String.prefix word s); discriminate. Qed.

(** With [fuel_for s] the parser never stops for lack of fuel: a [None]
    from [Json.parse] is a rejection of the text. *)
Lemma parse_fuel fuel :
  (forall s, 2 * String.length s + 1 <= fuel ->
     parse_value fuel s <> OutOfFuel /\
     forall v r, parse_value fuel s = Parsed v r ->
                 String.length r <= String.length s) /\
  (forall first acc s, 2 * String.length s + 2 <= fuel ->
     parse_elements fuel first acc s <> OutOfFuel /\
     forall v r, parse_elements fuel first acc s = Parsed v r ->
                 String.length r <= String.length s) /\
  (forall first acc s, 2 * String.length s + 2 <= fuel ->
     parse_members fuel first acc s <> OutOfFuel /\
     forall v r, parse_members fuel first acc s = Parsed v r ->
                 String.length r <= String.length s).
Proof.
  induction fuel as [|fuel (IHv & IHe & IHm)].
  { repeat split; intros; lia. }
  split; [|split].
  - intros s Hfuel. simpl.
    destruct (skip_ws s) as [|c rest] eqn:Hs; [split; [discriminate|intros; discriminate]|].
    apply skip_ws_cons in Hs.
    destruct (Ascii.eqb c "{").
    { destruct (IHm true [] rest) as [Hne Hlen]; [lia|].
      split; [exact Hne|]. intros v r H. apply Hlen in H. lia. }
    destruct (Ascii.eqb c "[").
    { destruct (IHe true [] rest) as [Hne Hlen]; [lia|].
      split; [exact Hne|]. intros v r H. apply Hlen in H. lia. }
    destruct (Ascii.eqb c "034").
    { pose proof (parse_string_fuel rest) as Hne.
      destruct (parse_string rest) as [str r'| |] eqn:Hstr; [|split; intros; discriminate|done].
      apply parse_string_length in Hstr.
      split; [discriminate|]. intros v r H; inversion H; subst; lia. }
    destruct (Ascii.eqb c "t").
    { split; [apply expect_fuel|]. intros v r H; apply expect_length in H; lia. }
    destruct (Ascii.eqb c "f").
    { split; [apply expect_fuel|]. intros v r H; apply expect_length in H; lia. }
    destruct (Ascii.eqb c "n").
    { split; [apply expect_fuel|]. intros v r H; apply expect_length in H; lia. }
    pose proof (parse_number_fuel (String c rest)) as Hne.
    destruct (parse_number (String c rest)) as [n r'| |] eqn:Hnum;
      [|split; intros; discriminate|done].
    apply parse_number_length in Hnum. simpl in Hnum.
    split; [discriminate|]. intros v r H; inversion H; subst; lia.
  - intros first acc s Hfuel. simpl.
    destruct (skip_ws s) as [|c rest] eqn:Hs; [split; [discriminate|intros; discriminate]|].
    apply skip_ws_cons in Hs.
    destruct (first && Ascii.eqb c "]")%bool.
    { split; [discriminate|]. intros v r H; inversion H; subst; lia. }
    destruct (IHv s) as [Hne Hlen]; [lia|].
    destruct (parse_value fuel s) as [v0 r0| |] eqn:Hv; [|split; intros; discriminate|done].
    specialize (Hlen _ _ eq_refl).
    destruct (skip_ws r0) as [|c' rest'] eqn:Hs'; [split; intros; discriminate|].
    apply skip_ws_cons in Hs'.
    destruct (Ascii.eqb c' ",").
    { destruct (IHe false (v0 :: acc) rest') as [Hne' Hlen']; [lia|].
      split; [exact Hne'|]. intros v r H. apply Hlen' in H. lia. }
    destruct (Ascii.eqb c' "]"); [|split; intros; discriminate].
    split; [discriminate|]. intros v r H; inversion H; subst; lia.
  - intros first acc s Hfuel. simpl.
    destruct (skip_ws s) as [|c rest] eqn:Hs; [split; [discriminate|intros; discriminate]|].
    apply skip_ws_cons in Hs.
    destruct (first && Ascii.eqb c "}")%bool.
    { split; [discriminate|]. intros v r H; inversion H; subst; lia. }
    destruct (Ascii.eqb c "034"); [|split; intros; discriminate].
    pose proof (parse_string_fuel rest) as Hne.
    destruct (parse_string rest) as [key rest1| |] eqn:Hstr; [|split; intros; discriminate|done].
    apply parse_string_length in Hstr.
    destruct (skip_ws rest1) as [|c1 rest2] eqn:Hs1; [split; intros; discriminate|].
    apply skip_ws_cons in Hs1.
    destruct (Ascii.eqb c1 ":"); [|split; intros; discriminate].
    destruct (IHv rest2) as [Hne2 Hlen2]; [lia|].
    destruct (parse_value fuel rest2) as [v0 rest3| |] eqn:Hv;
      [|split; intros; discriminate|done].
    specialize (Hlen2 _ _ eq_refl).
    destruct (skip_ws rest3) as [|c3 rest4] eqn:Hs3; [split; intros; discriminate|].
    apply skip_ws_cons in Hs3.
    destruct (Ascii.eqb c3 ",").
    { destruct (IHm false (set_field key v0 acc) rest4) as [Hne' Hlen']; [lia|].
      split; [exact Hne'|]. intros v r H. apply Hlen' in H. lia. }
    destruct (Ascii.eqb c3 "}"); [|split; intros; discriminate].
    split; [discriminate|]. intros v r H; inversion H; subst; lia.
Qed.

Lemma parse_value_never_starves s : parse_value (fuel_for s) s <> OutOfFuel.
Proof.
  destruct (parse_fuel (fuel_for s)) as [Hv _].
  apply Hv. unfold fuel_for. lia.
Qed.

(** More fuel does not change an answer: what the parser returns with
    some fuel it returns with any larger fuel. *)
Lemma parse_fuel_mono fuel : forall fuel', fuel <= fuel' ->
  (forall s, parse_value fuel s <> OutOfFuel ->
     parse_value fuel' s = parse_value fuel s) /\
  (forall first acc s, parse_elements fuel first acc s <> OutOfFuel ->
     parse_elements fuel' first acc s = parse_elements fuel first acc s) /\
  (forall first acc s, parse_members fuel first acc s <> OutOfFuel ->
     parse_members fuel' first acc s = parse_members fuel first acc s).
Proof.
  induction fuel as [|fuel IH]; intros fuel' Hle.
  { repeat split; intros; simpl in *; congruence. }
  destruct fuel' as [|fuel']; [lia|].
  destruct (IH fuel' ltac:(lia)) as (IHv & IHe & IHm).
  split; [|split].
  - intros s. simpl.
    destruct (skip_ws s) as [|c rest]; [reflexivity|].
    destruct (Ascii.eqb c "{"); [apply IHm|].
    destruct (Ascii.eqb c "["); [apply IHe|].
    reflexivity.
  - intros first acc s. simpl.
    destruct (skip_ws s) as [|c rest]; [reflexivity|].
    destruct (first && Ascii.eqb c "]")%bool; [reflexivity|].
    destruct (parse_value fuel s) as [v0 r0| |] eqn:Hv; [| |congruence].
    + rewrite (IHv s) by congruence. rewrite Hv.
      destruct (skip_ws r0) as [|c' rest']; [reflexivity|].
      destruct (Ascii.eqb c' ","); [apply IHe | reflexivity].
    + rewrite (IHv s) by congruence. rewrite Hv. reflexivity.
  - intros first acc s. simpl.
    destruct (skip_ws s) as [|c rest]; [reflexivity|].
    destruct (first && Ascii.eqb c "}")%bool; [reflexivity|].
    destruct (Ascii.eqb c "034"); [|reflexivity].
    destruct (parse_string rest) as [key rest1| |]; try reflexivity.
    destruct (skip_ws rest1) as [|c1 rest2]; [reflexivity|].
    destruct (Ascii.eqb c1 ":"); [|reflexivity].
    destruct (parse_value fuel rest2) as [v0 rest3| |] eqn:Hv; [| |congruence].
    + rewrite (IHv rest2) by congruence. rewrite Hv.
      destruct (skip_ws rest3) as [|c3 rest4]; [reflexivity|].
      destruct (Ascii.eqb c3 ","); [apply IHm | reflexivity].
    + rewrite (IHv rest2) by congruence. rewrite Hv. reflexivity.
Qed.

Lemma parse_value_more_fuel s fuel :
  fuel_for s <= fuel -> parse_value fuel s = parse_value (fuel_for s) s.
Proof.
  intros Hle. destruct (parse_fuel_mono (fuel_for s) fuel Hle) as [Hv _].
  apply Hv, parse_value_never_starves.
Qed.



End JsonFacts.

(** [JSON.parse("{}")], the text the handler substitutes for an absent or
    empty extraction output. *)
Lemma JSON_parse_empty_object : JSON_parse "{}" = Some (VObj []).
Proof. reflexivity. Qed.

(** [JSON_parse] answers [None] only where the text is rejected: the value
    is malformed, or something other than white space follows it. *)
Lemma JSON_parse_rejects s :
  JSON_parse s = None ->
  Json.parse_value (Json.fuel_for s) s = Json.Malformed \/
  exists v rest c rest',
    Json.parse_value (Json.fuel_for s) s = Json.Parsed v rest /\
    Json.skip_ws rest = String c rest'.
Proof.
  unfold JSON_parse, Json.parse.
  pose proof (JsonFacts.parse_value_never_starves s) as Hfuel.
  destruct (Json.parse_value (Json.fuel_for s) s) as [v rest| |]; [|auto|congruence].
  destruct (Json.skip_ws rest) as [|c rest'] eqn:Hrest; [discriminate|].
  intros _. right. exists v, rest, c, rest'. split; [reflexivity | exact Hrest].
Qed.


(** * The handler monad *)

Section MonadFacts.

Context {A B : Type}.

Lemma bind_return (m : M A) (k : A -> M B) st b st' :
  bind m k st = (Return b, st') ->
  exists a st1, m st = (Return a, st1) /\ k a st1 = (Return b, st').
Proof.
  unfold bind. destruct (m st) as [[a|e] st1]; [eauto | discriminate].
Qed.

Lemma bind_throw (m : M A) (k : A -> M B) st e st' :
  bind m k st = (Throw e, st') ->
  m st = (Throw e, st') \/
  exists a st1, m st = (Return a, st1) /\ k a st1 = (Throw e, st').
Proof.
  unfold bind. destruct (m st) as [[a|e0] st1]; [eauto | intros H; left; inversion H; reflexivity].
Qed.

Lemma lift_return (r : result A) st a st' :
  lift r st = (Return a, st') -> r = Return a /\ st' = st.
Proof. unfold lift. intros H; inversion H; auto. Qed.

Lemma ret_return (a a' : A) st st' :
  ret a st = (Return a', st') -> a' = a /\ st' = st.
Proof. unfold ret. intros H; inversion H; auto. Qed.

End MonadFacts.

Create HintDb keeps discriminated.

Lemma keeps_ret {A} (a : A) : keeps_store (ret a).
Proof. intros st r st' H; inversion H; reflexivity. Qed.

Lemma keeps_throw {A} n msg : keeps_store (@throw A n msg).
Proof. intros st r st' H; inversion H; reflexivity. Qed.

Lemma keeps_lift {A} (r : result A) : keeps_store (lift r).
Proof. intros st r' st' H; inversion H; reflexivity. Qed.

Lemma keeps_bind {A B} (m : M A) (k : A -> M B) :
  keeps_store m -> (forall a, keeps_store (k a)) -> keeps_store (bind m k).
Proof.
  intros Hm Hk st r st'. unfold bind.
  destruct (m st) as [[a|e] st1] eqn:Hst.
  - intros H. apply Hk in H. apply Hm in Hst. congruence.
  - intros H; inversion H; subst. eapply Hm; eassumption.
Qed.

#[global] Hint Resolve keeps_ret keeps_throw keeps_lift : keeps.
#[global] Hint Extern 2 (keeps_store (bind _ _)) => apply keeps_bind; [|intros] : keeps.

Section Keeps.

Variable env : Env.

Lemma keeps_Date_now : keeps_store (Date_now env).
Proof. intros st r st' H; inversion H; reflexivity. Qed.

Lemma keeps_readFileSync p : keeps_store (readFileSync p).
Proof.
  intros st r st'. unfold readFileSync.
  destruct (disk st !! p); intros H; inversion H; reflexivity.
Qed.

Lemma keeps_unlinkSync p : keeps_store (unlinkSync p).
Proof.
  intros st r st'. unfold unlinkSync.
  destruct (disk st !! p); intros H; inversion H; reflexivity.
Qed.

Lemma keeps_JSON_stringify call v : keeps_store (JSON_stringify env call v).
Proof.
  intros st r st'. unfold JSON_stringify.
  destruct (unserializable env call v); intros H; inversion H; reflexivity.
Qed.

Lemma keeps_append_current_items edit v : keeps_store (append_current_items env edit v).
Proof. destruct edit; simpl; [apply keeps_JSON_stringify | apply keeps_ret]. Qed.

Hint Resolve keeps_Date_now keeps_readFileSync keeps_unlinkSync
  keeps_JSON_stringify keeps_append_current_items : keeps.

Lemma keeps_fileToGenerativePart p mt : keeps_store (fileToGenerativePart p mt).
Proof. unfold fileToGenerativePart. auto with keeps. Qed.

Hint Resolve keeps_fileToGenerativePart : keeps.

Lemma keeps_process_files uploads : keeps_store (process_files uploads).
Proof. induction uploads; simpl; auto 10 with keeps. Qed.

Lemma keeps_settle outcome : keeps_store (settle outcome).
Proof. destruct outcome; simpl; auto with keeps. Qed.

Lemma keeps_JSON_parse s : keeps_store (JSON_parse_or_throw s).
Proof. unfold JSON_parse_or_throw. destruct (JSON_parse s); auto with keeps. Qed.

Lemma keeps_line_item li idx : keeps_store (line_item env li idx).
Proof.
  unfold line_item. apply keeps_bind; [auto with keeps|]. intros raw.
  apply keeps_bind; [|auto with keeps].
  destruct (truthy raw); auto with keeps.
Qed.

Hint Resolve keeps_process_files keeps_settle keeps_JSON_parse keeps_line_item : keeps.

Lemma keeps_map_from elements : forall idx, keeps_store (map_from env idx elements).
Proof. induction elements; simpl; intros; auto 10 with keeps. Qed.

Hint Resolve keeps_map_from : keeps.

Lemma keeps_reconcile_items parsedData : keeps_store (reconcile_items env parsedData).
Proof.
  unfold reconcile_items, map_line_items.
  apply keeps_bind; [auto with keeps|]. intros li.
  destruct (js_or li (VArr [])); auto with keeps.
Qed.

Lemma keeps_choose_rfq_id req : keeps_store (choose_rfq_id env req).
Proof.
  unfold choose_rfq_id.
  destruct (rfqId req) as [s|]; [destruct (string_is_empty s)|]; auto 10 with keeps.
Qed.

Hint Resolve keeps_reconcile_items keeps_choose_rfq_id : keeps.

Lemma keeps_before_await req : keeps_store (before_await env req).
Proof. unfold before_await. auto 10 with keeps. Qed.

Lemma keeps_after_await req outcome : keeps_store (after_await env req outcome).
Proof. unfold after_await. auto 20 with keeps. Qed.

Hint Resolve keeps_before_await keeps_after_await : keeps.

Lemma keeps_build_result req : keeps_store (build_result env req).
Proof. unfold build_result. auto with keeps. Qed.

End Keeps.

(** * Property reads *)

Lemma get_return v k x : get v k = Return x -> x = opt_get v k /\ is_nullish v = false.
Proof. destruct v; simpl; intros H; inversion H; auto. Qed.

Lemma get_not_nullish v k : is_nullish v = false -> get v k = Return (opt_get v k).
Proof. destruct v; simpl; intros H; try discriminate; reflexivity. Qed.

Lemma get_throw v k e : get v k = Throw e -> is_nullish v = true.
Proof. destruct v; simpl; intros H; try discriminate; reflexivity. Qed.

Lemma js_or_defined a s : js_or a (VStr s) <> VUndefined.
Proof. unfold js_or. destruct (truthy a) eqn:Ht; [|discriminate]. intros ->. discriminate. Qed.

(** * The item mapping *)

Section Mapping.

Variable env : Env.

Lemma line_item_return li idx st item st' :
  line_item env li idx st = (Return item, st') ->
  is_nullish li = false /\
  exists id, item = item_record id li idx /\ resolved li idx id.
Proof.
  unfold line_item. intros H.
  apply bind_return in H as (raw & st1 & Hraw & H).
  apply lift_return in Hraw as [Hraw ->].
  apply get_return in Hraw as [-> Hli].
  apply bind_return in H as (id & st2 & Hid & H).
  apply ret_return in H as [-> ->].
  split; [exact Hli|]. exists id. split; [reflexivity|].
  unfold resolved, item_id_of.
  destruct (truthy (opt_get li "item_id")) eqn:Ht.
  - apply ret_return in Hid as [-> _]. left; auto.
  - apply bind_return in Hid as (t & st3 & _ & Hid).
    apply ret_return in Hid as [-> _]. right; eauto.
Qed.

Lemma line_item_total li idx st :
  is_nullish li = false ->
  exists item st', line_item env li idx st = (Return item, st').
Proof.
  intros Hli. unfold line_item, bind, lift. rewrite (get_not_nullish _ _ Hli).
  destruct (truthy (opt_get li "item_id")); simpl; eauto.
Qed.

Lemma map_from_return elements : forall idx st items st',
  map_from env idx elements st = (Return items, st') ->
  length items = length elements /\
  forall i li, elements !! i = Some li ->
    is_nullish li = false /\
    exists id, items !! i = Some (item_record id li (idx + i)) /\
               resolved li (idx + i) id.
Proof.
  induction elements as [|li0 rest IH]; simpl; intros idx st items st' H.
  - apply ret_return in H as [-> _]. split; [reflexivity|]. intros i li Hi. discriminate.
  - apply bind_return in H as (item & st1 & Hitem & H).
    apply bind_return in H as (items' & st2 & Hrest & H).
    apply ret_return in H as [-> ->].
    apply line_item_return in Hitem as (Hli0 & id0 & -> & Hid0).
    apply IH in Hrest as [Hlen Hrest].
    split; [simpl; congruence|].
    intros [|i] li Hi; simpl in *.
    + inversion Hi; subst. rewrite Nat.add_0_r. split; [assumption|]. eauto.
    + replace (idx + S i) with (S idx + i) by lia. apply Hrest. exact Hi.
Qed.

Lemma map_from_total elements : forall idx st,
  forallb (fun li => negb (is_nullish li)) elements = true ->
  exists items st', map_from env idx elements st = (Return items, st').
Proof.
  induction elements as [|li0 rest IH]; simpl; intros idx st Hall.
  - eexists _, _. reflexivity.
  - apply andb_prop in Hall as [Hli Hrest].
    apply negb_true_iff in Hli.
    destruct (line_item_total li0 idx st Hli) as (item & st1 & Hitem).
    destruct (IH (S idx) st1 Hrest) as (items & st2 & Hitems).
    exists (item :: items), st2.
    unfold bind. rewrite Hitem, Hitems. reflexivity.
Qed.

Lemma reconcile_items_return parsedData st items st' :
  reconcile_items env parsedData st = (Return items, st') ->
  mappable parsedData = true /\
  map_from env 0 (raw_items parsedData) st = (Return items, st').
Proof.
  unfold reconcile_items, map_line_items, mappable, raw_items. intros H.
  apply bind_return in H as (li & st1 & Hli & H).
  apply lift_return in Hli as [Hli ->].
  apply get_return in Hli as [-> Hnull]. rewrite Hnull. simpl.
  destruct (js_or (opt_get parsedData "line_items") (VArr [])) eqn:Hor;
    try (unfold throw in H; discriminate).
  split; [|exact H].
  apply forallb_forall. intros li Hin.
  apply list_elem_of_In, list_elem_of_lookup in Hin as [i Hi].
  apply map_from_return in H as [_ H].
  destruct (H i li Hi) as [Hnn _]. rewrite Hnn. reflexivity.
Qed.

Lemma reconcile_items_total parsedData st :
  mappable parsedData = true ->
  exists items st', reconcile_items env parsedData st = (Return items, st').
Proof.
  unfold mappable, reconcile_items, map_line_items. intros H.
  apply andb_prop in H as [Hnull H]. apply negb_true_iff in Hnull.
  unfold bind at 1, lift. rewrite (get_not_nullish _ _ Hnull).
  destruct (js_or (opt_get parsedData "line_items") (VArr [])); try discriminate.
  apply map_from_total. exact H.
Qed.

Lemma reconcile_items_throw parsedData st e st' :
  reconcile_items env parsedData st = (Throw e, st') -> mappable parsedData = false.
Proof.
  intros H. destruct (mappable parsedData) eqn:Hm; [|reflexivity].
  destruct (reconcile_items_total parsedData st Hm) as (items & st1 & Hok). congruence.
Qed.

(** The produced list, item by item. *)
Lemma reconcile_items_lookup parsedData st items st' :
  reconcile_items env parsedData st = (Return items, st') ->
  length items = length (raw_items parsedData) /\
  forall i li, raw_items parsedData !! i = Some li ->
    exists id, items !! i = Some (item_record id li i) /\ resolved li i id.
Proof.
  intros H. apply reconcile_items_return in H as [_ H].
  apply map_from_return in H as [Hlen H]. split; [exact Hlen|].
  intros i li Hi. destruct (H i li Hi) as [_ Hitem]. exact Hitem.
Qed.

End Mapping.

(** * The parse/edit endpoint *)

Section Endpoint.

Variable env : Env.

Lemma choose_rfq_id_total req st :
  exists id st', choose_rfq_id env req st = (Return id, st').
Proof.
  unfold choose_rfq_id.
  destruct (rfqId req) as [s|]; [destruct (string_is_empty s)|];
    unfold bind, Date_now, ret; simpl; eauto.
Qed.

Lemma append_current_items_return edit v st u st' :
  append_current_items env edit v st = (Return u, st') ->
  st' = st /\ (edit = true -> unserializable env PromptItems v = false).
Proof.
  unfold append_current_items, JSON_stringify. destruct edit.
  - destruct (unserializable env PromptItems v); intros H; inversion H; auto.
  - intros H; inversion H. split; [reflexivity | discriminate].
Qed.

(** The stretch before the [await], when it returns. *)
Lemma before_await_return req st g st1 :
  before_await env req st = (Return g, st1) ->
  exists edit parts,
    length_positive env (current_items req) = Return edit /\
    (edit = true -> unserializable env PromptItems (current_items req) = false) /\
    process_files (files req) st = (Return parts, st1) /\
    g = gen_request req edit parts.
Proof.
  unfold before_await. intros H.
  apply bind_return in H as (edit & st0 & Hedit & H).
  apply lift_return in Hedit as [Hedit ->].
  apply bind_return in H as (u & st0 & Hprompt & H).
  apply append_current_items_return in Hprompt as [-> Hprompt].
  apply bind_return in H as (parts & sta & Hparts & H).
  apply ret_return in H as [-> ->].
  exists edit, parts. auto.
Qed.

(** The stretch before the [await], once the mode is known and the prompt
    can be built. *)
Lemma before_await_mode req st edit :
  length_positive env (current_items req) = Return edit ->
  (edit = true -> unserializable env PromptItems (current_items req) = false) ->
  before_await env req st
  = match process_files (files req) st with
    | (Return parts, st1) => (Return (gen_request req edit parts), st1)
    | (Throw e, st1) => (Throw e, st1)
    end.
Proof.
  intros Hedit Hprompt.
  unfold before_await, bind, lift, append_current_items, JSON_stringify. rewrite Hedit.
  destruct edit; [rewrite (Hprompt eq_refl)|unfold ret at 1];
    destruct (process_files (files req) st) as [[parts|e] st1]; reflexivity.
Qed.

(** In edit mode, current items that [JSON.stringify] gives up on end the
    stretch before any upload is read. *)
Lemma before_await_overflow req st :
  length_positive env (current_items req) = Return true ->
  unserializable env PromptItems (current_items req) = true ->
  before_await env req st = (Throw stack_overflow, st).
Proof.
  intros Hedit Hprompt.
  unfold before_await, bind, lift, append_current_items, JSON_stringify.
  rewrite Hedit, Hprompt. reflexivity.
Qed.

(** The steps a successful [try] block went through. *)
Lemma build_result_return req st id result st1 :
  build_result env req st = (Return (id, result), st1) ->
  exists edit parts sta response_text parsedData items stb,
    length_positive env (current_items req) = Return edit /\
    process_files (files req) st = (Return parts, sta) /\
    generateContent env (gen_request req edit parts) = Fulfilled response_text /\
    JSON_parse (field_or response_text "{}") = Some parsedData /\
    reconcile_items env parsedData sta = (Return items, stb) /\
    choose_rfq_id env req stb = (Return id, st1) /\
    result = [("rfq_id", VStr id);
              ("project_name", opt_get parsedData "project_name");
              ("commercial", commercial_of (opt_get parsedData "commercial"));
              ("line_items", VArr items)].
Proof.
  unfold build_result. intros H.
  apply bind_return in H as (g & st0 & Hbefore & H).
  apply before_await_return in Hbefore as (edit & parts & Hedit & _ & Hparts & ->).
  unfold after_await in H.
  apply bind_return in H as (response_text & st2 & Hgen & H).
  destruct (generateContent env (gen_request req edit parts)) as [t|msg] eqn:Hg;
    [|unfold settle, throw in Hgen; discriminate].
  apply ret_return in Hgen as [-> ->].
  apply bind_return in H as (parsedData & st3 & Hparse & H).
  unfold JSON_parse_or_throw in Hparse.
  destruct (JSON_parse (field_or t "{}")) as [v|] eqn:Hjson;
    [|unfold throw in Hparse; discriminate].
  apply ret_return in Hparse as [-> ->].
  apply bind_return in H as (items & stb & Hitems & H).
  apply bind_return in H as (id' & st4 & Hid & H).
  apply ret_return in H as [H ->]. inversion H; subst.
  exists edit, parts, st0, t, v, items, stb. repeat split; assumption.
Qed.

(** When every step before the mapping succeeds and the parsed output is
    mappable, the [try] block builds a result. *)
Lemma build_result_total req st edit parts sta response_text parsedData :
  length_positive env (current_items req) = Return edit ->
  (edit = true -> unserializable env PromptItems (current_items req) = false) ->
  process_files (files req) st = (Return parts, sta) ->
  generateContent env (gen_request req edit parts) = Fulfilled response_text ->
  JSON_parse (field_or response_text "{}") = Some parsedData ->
  mappable parsedData = true ->
  exists items stb id st1,
    reconcile_items env parsedData sta = (Return items, stb) /\
    build_result env req st =
      (Return (id, [("rfq_id", VStr id);
                    ("project_name", opt_get parsedData "project_name");
                    ("commercial", commercial_of (opt_get parsedData "commercial"));
                    ("line_items", VArr items)]), st1).
Proof.
  intros Hedit Hprompt Hparts Hgen Hjson Hmap.
  destruct (reconcile_items_total env parsedData sta Hmap) as (items & stb & Hitems).
  destruct (choose_rfq_id_total req stb) as (id & st1 & Hid).
  exists items, stb, id, st1. split; [exact Hitems|].
  unfold build_result, bind. rewrite (before_await_mode req st edit Hedit Hprompt), Hparts.
  unfold after_await, bind, JSON_parse_or_throw.
  rewrite Hgen. unfold settle, ret at 1.
  rewrite Hjson. unfold ret at 1. rewrite Hitems, Hid. reflexivity.
Qed.

(** The ways the endpoint answers: the result is built, assigned and then
    sent (or not, when [res.json] cannot serialize it), or a step before
    the assignment throws. *)
Lemma parse_endpoint_cases req st :
  (exists id result st1,
     build_result env req st = (Return (id, result), st1) /\
     rfqStore st1 = rfqStore st /\
     parse_endpoint env req st =
       (Return (if unserializable env ResponseBody (VObj result)
                then error_response stack_overflow
                else MkResponse 200 (VObj result)),
        set_rfqStore (store_write (rfqStore st1) id result) st1)) \/
  (exists e st1,
     build_result env req st = (Throw e, st1) /\
     rfqStore st1 = rfqStore st /\
     parse_endpoint env req st = (Return (error_response e), st1)).
Proof.
  pose proof (keeps_build_result env req st) as Hkeep.
  unfold parse_endpoint, try_catch, parse_pipeline, bind.
  destruct (build_result env req st) as [[[id result]|e] st1] eqn:Hb.
  - left. exists id, result, st1. split; [reflexivity|]. split; [eauto|].
    unfold store_result, res_json, bind, JSON_stringify. simpl.
    destruct (unserializable env ResponseBody (VObj result)); reflexivity.
  - right. exists e, st1. repeat split; eauto.
Qed.

Lemma parse_endpoint_responds req st :
  exists resp st', parse_endpoint env req st = (Return resp, st') /\
                   (status resp = 200 \/ status resp = 500).
Proof.
  destruct (parse_endpoint_cases req st)
    as [(id & result & st1 & _ & _ & H)|(e & st1 & _ & _ & H)];
    rewrite H; eexists _, _; (split; [reflexivity|]).
  - destruct (unserializable env ResponseBody (VObj result)); auto.
  - auto.
Qed.

(** A successful answer, taken apart. *)
Lemma parse_endpoint_success req st resp st' :
  parse_endpoint env req st = (Return resp, st') ->
  status resp = 200 ->
  exists id result st1,
    build_result env req st = (Return (id, result), st1) /\
    resp = MkResponse 200 (VObj result) /\
    rfqStore st' = store_write (rfqStore st) id result.
Proof.
  intros H Hstatus.
  destruct (parse_endpoint_cases req st)
    as [(id & result & st1 & Hb & Hst & H')|(e & st1 & _ & _ & H')];
    rewrite H' in H; inversion H; subst.
  - destruct (unserializable env ResponseBody (VObj result)); [discriminate Hstatus|].
    exists id, result, st1. repeat split; [assumption|]. simpl. rewrite Hst. reflexivity.
  - simpl in Hstatus. discriminate.
Qed.

(** An answer with status 200 was serialized. *)
Lemma parse_endpoint_sent req st resp st' :
  parse_endpoint env req st = (Return resp, st') ->
  status resp = 200 ->
  unserializable env ResponseBody (body resp) = false.
Proof.
  intros H Hstatus.
  destruct (parse_endpoint_cases req st)
    as [(id & result & st1 & Hb & Hst & H')|(e & st1 & _ & _ & H')];
    rewrite H' in H; inversion H; subst.
  - destruct (unserializable env ResponseBody (VObj result)) eqn:Hs;
      [discriminate Hstatus | exact Hs].
  - simpl in Hstatus. discriminate.
Qed.


End Endpoint.

(** * Line numbers (C7) *)

Lemma reconcile_items_lines env parsedData st items st' :
  reconcile_items env parsedData st = (Return items, st') ->
  line_of <$> items = number_of_nat <$> seq 1 (length items).
Proof.
  intros H. apply reconcile_items_lookup in H as [Hlen H].
  apply list_eq. intros i. rewrite !list_lookup_fmap.
  destruct (decide (i < length items)) as [Hlt|Hge].
  - destruct (lookup_lt_is_Some_2 (raw_items parsedData) i) as [li Hli]; [lia|].
    destruct (H i li Hli) as (id & Hitem & _).
    rewrite Hitem, lookup_seq_lt by assumption.
    rewrite (Nat.add_comm 1 i). reflexivity.
  - rewrite (lookup_ge_None_2 items i) by lia.
    rewrite (lookup_ge_None_2 (seq 1 (length items)) i) by (rewrite length_seq; lia).
    reflexivity.
Qed.

(** C7.  In every successful answer of the parse/edit endpoint the [line]
    values of the N line items, read in sequence order, are 1, 2, ..., N,
    whatever the request (and its prior items) and the extraction output
    say. *)
Theorem line_numbers_sequential env req st resp st' :
  parse_endpoint env req st = (Return resp, st') ->
  status resp = 200 ->
  line_of <$> line_items_of (body resp)
  = number_of_nat <$> seq 1 (length (line_items_of (body resp))).
Proof.
  intros H Hstatus.
  apply parse_endpoint_success in H as (id & result & st1 & Hb & -> & _); [|assumption].
  apply build_result_return in Hb
    as (edit & parts & sta & t & parsedData & items & stb & _ & _ & _ & _ & Hitems & _ & ->).
  apply reconcile_items_lines in Hitems. exact Hitems.
Qed.

Lemma line_numbers_sequential_witness :
  exists resp st',
    parse_endpoint (answering (Some two_items_text)) (creating "two pipes") initial_state
      = (Return resp, st') /\
    status resp = 200 /\
    line_of <$> line_items_of (body resp) = [number_of_nat 1; number_of_nat 2].
Proof.
  eexists _, _. split; [vm_compute; reflexivity|]. split; [reflexivity|].
  exact (line_numbers_sequential (answering (Some two_items_text))
           (creating "two pipes") initial_state _ _ eq_refl eq_refl).
Defined.

(** * Failures and the store (C8) *)






(** Served alone, the handler is the handler among others that do nothing. *)
Lemma parse_endpoint_among_none env req st :
  parse_endpoint_among env (fun st0 => st0) req st = parse_endpoint env req st.
Proof.
  unfold parse_endpoint_among, parse_endpoint, parse_pipeline, build_result,
    try_catch, bind.
  destruct (before_await env req st) as [[g|e] st1]; reflexivity.
Qed.

(** X8.  When other handlers run during the [await], this request adds
    nothing to what they left in [rfqStore] if it fails before its result
    is complete, and exactly one assignment of its complete result
    otherwise: when it succeeds, and when [res.json] cannot serialize the
    result and the answer is the error. *)
Lemma request_among_others env others req st resp st' :
  parse_endpoint_among env others req st = (Return resp, st') ->
  (status resp = 500 /\
   (rfqStore st' = rfqStore st \/
    exists g st1, before_await env req st = (Return g, st1) /\
                  rfqStore st' = rfqStore (others st1))) \/
  (exists g st1 id result,
     before_await env req st = (Return g, st1) /\
     rfqStore st' = store_write (rfqStore (others st1)) id result /\
     ((status resp = 200 /\ body resp = VObj result /\
       unserializable env ResponseBody (VObj result) = false) \/
      (status resp = 500 /\ unserializable env ResponseBody (VObj result) = true))).
Proof.
  unfold parse_endpoint_among, try_catch, bind.
  destruct (before_await env req st) as [[g|e] st1] eqn:Hbefore.
  - destruct (after_await env req (generateContent env g) (others st1))
      as [[[id result]|e] st2] eqn:Hafter.
    + unfold store_result, res_json, bind, JSON_stringify. simpl.
      destruct (unserializable env ResponseBody (VObj result)) eqn:Hs;
        intros H; inversion H; subst; simpl;
        right; exists g, st1, id, result; (split; [reflexivity|]);
        (split; [rewrite (keeps_after_await env _ _ _ _ _ Hafter); reflexivity|]);
        [right | left]; auto.
    + intros H; inversion H; subst; simpl.
      left. split; [reflexivity|]. right. exists g, st1. split; [reflexivity|].
      apply (keeps_after_await env _ _ _ _ _ Hafter).
  - intros H; inversion H; subst. left. split; [reflexivity|]. left.
    apply (keeps_before_await env _ _ _ _ Hbefore).
Qed.

(** A request that succeeds replaces the record as a whole: the store after
    it is the store before it with one assignment of the complete result. *)
Lemma successful_request_replaces env req st resp st' :
  parse_endpoint env req st = (Return resp, st') ->
  status resp = 200 ->
  exists id result,
    body resp = VObj result /\
    lookup_field "rfq_id" result = Some (VStr id) /\
    rfqStore st' = store_write (rfqStore st) id result.
Proof.
  intros H Hstatus.
  apply parse_endpoint_success in H as (id & result & st1 & Hb & -> & Hst); [|assumption].
  apply build_result_return in Hb
    as (edit & parts & sta & t & parsedData & items & stb & _ & _ & _ & _ & _ & _ & ->).
  eexists id, _. repeat split. exact Hst.
Qed.

(** * Malformed prior items (C10) *)




(** * Absent and malformed extraction output (C1) *)

(** An absent extraction output is read as [{}]: the request succeeds, and
    an RFQ without line items is stored and returned. *)
Lemma absent_output_stores_empty_rfq :
  exists resp st',
    parse_endpoint (answering None) (creating "a pipe") initial_state = (Return resp, st') /\
    status resp = 200 /\
    line_items_of (body resp) = [] /\
    store_read (rfqStore st') "RFQ-0123" = body resp.
Proof. eexists _, _. vm_compute. repeat split. Qed.

(** C1, as the specification states it, fails: with no extraction output
    at all the request is answered with status 200. *)
Lemma malformed_output_fails_counterexample : ~ Claimed.malformed_output_fails.
Proof.
  intros Hclaim.
  destruct (Hclaim (answering None) (creating "a pipe") initial_state None
              (fun _ => eq_refl) I) as (resp & st' & Hrun & Hstatus & _).
  vm_compute in Hrun. inversion Hrun; subst. simpl in Hstatus. discriminate.
Qed.

(** C1, amended.  Read the extraction text with an absent or empty text
    replaced by [{}].  If it is not valid JSON, or parses to a value the
    item mapping cannot run over (null, a [line_items] that is truthy but
    not an array, an array with a null entry), the request is answered with
    status 500 and the error's message, and nothing is stored.  Otherwise,
    provided the steps before the extraction call succeed (the mode test,
    the prompt, the uploads), a record with as many line items as the
    output carries, none when [line_items] is missing, is stored; it is the
    answer, with status 200, unless [res.json] cannot serialize it, and
    then the answer is that error with status 500. *)
Theorem unusable_output_fails env req st response_text :
  (forall g, generateContent env g = Fulfilled response_text) ->
  ((forall v, JSON_parse (field_or response_text "{}") = Some v -> mappable v = false) ->
   exists st' msg,
     parse_endpoint env req st
       = (Return (MkResponse 500 (VObj [("error", VStr msg)])), st') /\
     rfqStore st' = rfqStore st) /\
  (forall parsedData edit parts sta,
     JSON_parse (field_or response_text "{}") = Some parsedData ->
     mappable parsedData = true ->
     length_positive env (current_items req) = Return edit ->
     (edit = true -> unserializable env PromptItems (current_items req) = false) ->
     process_files (files req) st = (Return parts, sta) ->
     exists id result st',
       parse_endpoint env req st
       = (Return (if unserializable env ResponseBody (VObj result)
                  then error_response stack_overflow
                  else MkResponse 200 (VObj result)), st') /\
       rfqStore st' = store_write (rfqStore st) id result /\
       length (line_items_of (VObj result)) = length (raw_items parsedData)).
Proof.
  intros Hgen. split.
  - intros Hbad.
    destruct (parse_endpoint_cases env req st)
      as [(id & result & st1 & Hb & _ & _)|(e & st1 & _ & Hst & H)].
    + apply build_result_return in Hb
        as (edit & parts & sta & t & parsedData & items & stb
            & _ & _ & Hg & Hjson & Hitems & _ & _).
      rewrite Hgen in Hg. inversion Hg; subst.
      apply reconcile_items_return in Hitems as [Hmap _].
      rewrite (Hbad _ Hjson) in Hmap. discriminate.
    + exists st1, (message e). split; [exact H | exact Hst].
  - intros parsedData edit parts sta Hjson Hmap Hedit Hprompt Hparts.
    destruct (build_result_total env req st edit parts sta response_text parsedData
                Hedit Hprompt Hparts (Hgen _) Hjson Hmap)
      as (items & stb & id & st1 & Hitems & Hb).
    destruct (parse_endpoint_cases env req st)
      as [(id' & result & st1' & Hb' & Hst & H)|(e & st1' & Hb' & _ & _)];
      rewrite Hb in Hb'; [|discriminate].
    inversion Hb'; subst.
    eexists id', _, _. split; [exact H|]. split; [simpl; rewrite Hst; reflexivity|].
    apply reconcile_items_lookup in Hitems as [Hlen _]. exact Hlen.
Qed.

Lemma unusable_output_fails_witness :
  exists st' msg,
    parse_endpoint (answering (Some "{oops")) (creating "a pipe") initial_state
      = (Return (MkResponse 500 (VObj [("error", VStr msg)])), st') /\
    rfqStore st' = empty_store.
Proof.
  destruct (unusable_output_fails (answering (Some "{oops")) (creating "a pipe")
              initial_state (Some "{oops") (fun _ => eq_refl)) as [Hfail _].
  apply Hfail. intros v Hv. vm_compute in Hv. discriminate.
Defined.

(** * Dimensions (C2, C3) *)

Lemma JSON_parse_furlong_text : JSON_parse furlong_text = Some furlong_output.
Proof. vm_compute. reflexivity. Qed.

(** Each Dimension of a produced item is the raw value and the raw unit of
    its source keys, as they are. *)
Lemma dimension_copied id li idx field val_key unit_key :
  In (field, (val_key, unit_key)) dimension_sources ->
  value_of (dimension_of (item_record id li idx) field) = raw_size li val_key /\
  unit_of (dimension_of (item_record id li idx) field) = raw_size li unit_key.
Proof.
  unfold dimension_sources. simpl.
  intros [H|[H|[H|[]]]]; inversion H; subst; split; reflexivity.
Qed.

Lemma reconcile_items_dimension env parsedData st items st' i li item field val_key unit_key :
  reconcile_items env parsedData st = (Return items, st') ->
  raw_items parsedData !! i = Some li ->
  items !! i = Some item ->
  In (field, (val_key, unit_key)) dimension_sources ->
  value_of (dimension_of item field) = raw_size li val_key /\
  unit_of (dimension_of item field) = raw_size li unit_key.
Proof.
  intros H Hli Hitem Hfield.
  apply reconcile_items_lookup in H as [_ H].
  destruct (H i li Hli) as (id & Hitem' & _).
  rewrite Hitem in Hitem'. inversion Hitem'; subst.
  apply dimension_copied. exact Hfield.
Qed.

(** C2, as the specification states it, fails: a raw unit outside the
    closed set comes out as it went in. *)
Lemma units_normalized_counterexample : ~ Claimed.units_normalized.
Proof.
  intros Hclaim.
  eassert (Hrun : reconcile_items (answering None) furlong_output initial_state
                  = (Return _, _))
    by (vm_compute; reflexivity).
  specialize (Hclaim _ _ _ _ _ Hrun _ "outer_diameter" (or_introl eq_refl) (or_introl eq_refl)).
  vm_compute in Hclaim.
  destruct Hclaim as [Hunset|(s & Hs & Hin)]; [discriminate|].
  inversion Hs; subst.
  repeat (destruct Hin as [Hin|Hin]; [discriminate|]). exact Hin.
Qed.

(** C2, amended.  For every produced line item, each of the three
    Dimension fields carries the raw unit of its source key in the
    extraction output, unchanged (unset when the raw item has no size or no
    such unit).  So the unit is unset or one of mm, m, in, ft, pcs exactly
    when the raw unit is; a raw unit outside the set is neither mapped into
    it nor cleared. *)
Theorem units_copied_verbatim env parsedData st items st' i li item field val_key unit_key :
  reconcile_items env parsedData st = (Return items, st') ->
  raw_items parsedData !! i = Some li ->
  items !! i = Some item ->
  In (field, (val_key, unit_key)) dimension_sources ->
  unit_of (dimension_of item field) = raw_size li unit_key /\
  (Claimed.unit_normalized (unit_of (dimension_of item field)) <->
   Claimed.unit_normalized (raw_size li unit_key)).
Proof.
  intros H Hli Hitem Hfield.
  destruct (reconcile_items_dimension _ _ _ _ _ _ _ _ _ _ _ H Hli Hitem Hfield) as [_ Hunit].
  split; [exact Hunit|]. rewrite Hunit. reflexivity.
Qed.

Lemma units_copied_verbatim_witness :
  exists items st' item,
    reconcile_items (answering None) inch_output initial_state = (Return items, st') /\
    items !! 0 = Some item /\
    unit_of (dimension_of item "outer_diameter") = VStr "in".
Proof.
  eexists _, _, _. split; [vm_compute; reflexivity|]. split; [reflexivity|].
  refine (proj1 (units_copied_verbatim (answering None) inch_output initial_state _ _ 0 _ _
                   "outer_diameter" "od_val" "od_unit" eq_refl eq_refl eq_refl _)).
  left. reflexivity.
Defined.

(** C3, as the specification states it, fails: the unrecognized unit is
    not left unset. *)
Lemma unknown_unit_unset_counterexample : ~ Claimed.unknown_unit_unset.
Proof.
  intros Hclaim.
  eassert (Hrun : reconcile_items (answering None)
                    furlong_output initial_state = (Return _, _))
    by (vm_compute; reflexivity).
  destruct (Hclaim _ _ _ _ _ 0 _ _ "outer_diameter" "od_val" "od_unit" "furlong"
              Hrun eq_refl eq_refl (or_introl eq_refl) eq_refl) as [_ Hunit].
  - intros Hin. repeat (destruct Hin as [Hin|Hin]; [discriminate|]). exact Hin.
  - intros Hin. repeat (destruct Hin as [Hin|Hin]; [discriminate|]). exact Hin.
  - vm_compute in Hunit. discriminate.
Qed.

(** C3, amended.  For every raw extracted dimension whose unit string is
    not in the closed set, the produced Dimension preserves the numeric
    value and carries that same unit string: the unit is not cleared, and
    no unit of the closed set (no default, no guess) is put in its place. *)
Theorem unknown_unit_kept env parsedData st items st' i li item field val_key unit_key s :
  reconcile_items env parsedData st = (Return items, st') ->
  raw_items parsedData !! i = Some li ->
  items !! i = Some item ->
  In (field, (val_key, unit_key)) dimension_sources ->
  raw_size li unit_key = VStr s ->
  ~ In s Claimed.closed_unit_set ->
  value_of (dimension_of item field) = raw_size li val_key /\
  unit_of (dimension_of item field) = VStr s /\
  ~ Claimed.unit_normalized (unit_of (dimension_of item field)).
Proof.
  intros H Hli Hitem Hfield Hraw Hout.
  destruct (reconcile_items_dimension _ _ _ _ _ _ _ _ _ _ _ H Hli Hitem Hfield)
    as [Hvalue Hunit].
  rewrite Hunit, Hraw. repeat split; [exact Hvalue|].
  intros [Hunset|(s' & Hs' & Hin)]; [discriminate|].
  inversion Hs'; subst. contradiction.
Qed.

Lemma unknown_unit_kept_witness :
  exists items st' item,
    reconcile_items (answering None) furlong_output initial_state = (Return items, st') /\
    items !! 0 = Some item /\
    value_of (dimension_of item "outer_diameter") = VNum (Finite (inject_Z 10)) /\
    unit_of (dimension_of item "outer_diameter") = VStr "furlong".
Proof.
  eexists _, _, _. split; [vm_compute; reflexivity|]. split; [reflexivity|].
  refine (let H := unknown_unit_kept (answering None) furlong_output initial_state _ _ 0 _ _
                     "outer_diameter" "od_val" "od_unit" "furlong"
                     eq_refl eq_refl eq_refl (or_introl eq_refl) eq_refl _ in
          conj (proj1 H) (proj1 (proj2 H))).
  intros Hin. repeat (destruct Hin as [Hin|Hin]; [discriminate|]). exact Hin.
Defined.

(** * Identifiers (C5, C6) *)

Lemma dashless_cons c s : c <> "-"%char -> dashless s -> dashless (String c s).
Proof.
  intros Hc Hs [|c' a] b; simpl; intros H; inversion H; subst.
  - contradiction.
  - eapply Hs. reflexivity.
Qed.

Lemma pretty_N_char_not_dash x : pretty_N_char x <> "-"%char.
Proof. unfold pretty_N_char. repeat case_match; discriminate. Qed.

Lemma pretty_N_go_dashless x : forall s, dashless s -> dashless (pretty_N_go x s).
Proof.
  induction (N.lt_wf_0 x) as [x _ IH]; intros s Hs.
  destruct (decide (x = 0)%N) as [->|Hx].
  - rewrite pretty_N_go_0. exact Hs.
  - rewrite pretty_N_go_step by lia.
    apply IH; [apply N.div_lt; lia|].
    apply dashless_cons; [apply pretty_N_char_not_dash | exact Hs].
Qed.

Lemma dashless_empty : dashless EmptyString.
Proof. intros [|c a] b; simpl; discriminate. Qed.

Lemma pretty_nat_dashless (n : nat) : dashless (pretty n).
Proof.
  unfold pretty, pretty_nat, pretty, pretty_N.
  destruct (decide (N.of_nat n = 0%N)).
  - apply dashless_cons; [discriminate | apply dashless_empty].
  - apply pretty_N_go_dashless, dashless_empty.
Qed.

(** What follows the last [-] of a string is determined by the string. *)
Lemma after_last_dash a : forall a' d d',
  dashless d -> dashless d' ->
  a ++ String "-"%char d = a' ++ String "-"%char d' -> d = d'.
Proof.
  induction a as [|c a IH]; intros [|c' a'] d d' Hd Hd'; simpl; intros H.
  - inversion H; reflexivity.
  - inversion H; subst. exfalso. eapply Hd. reflexivity.
  - inversion H; subst. exfalso. eapply Hd'. reflexivity.
  - inversion H; subst. eapply IH; eassumption.
Qed.

(** Identifiers minted for different positions differ, whatever the clock
    read. *)
Lemma minted_id_index t t' i j : minted_id t i = minted_id t' j -> i = j.
Proof.
  unfold minted_id. simpl. intros H. inversion H as [H'].
  apply after_last_dash in H'; try apply pretty_nat_dashless.
  apply (inj pretty). exact H'.
Qed.

Lemma item_id_of_record id li idx : item_id_of (item_record id li idx) = id.
Proof. reflexivity. Qed.

(** Identity resolution of one pass: what the item at each position gets. *)
Lemma reconcile_items_identity env parsedData st items st' i li item :
  reconcile_items env parsedData st = (Return items, st') ->
  raw_items parsedData !! i = Some li ->
  items !! i = Some item ->
  resolved li i (item_id_of item).
Proof.
  intros H Hli Hitem.
  apply reconcile_items_lookup in H as [_ H].
  destruct (H i li Hli) as (id & Hitem' & Hid).
  rewrite Hitem in Hitem'. inversion Hitem'; subst. exact Hid.
Qed.

Lemma minted_ids_differ env parsedData st items st' i j li lj item other :
  reconcile_items env parsedData st = (Return items, st') ->
  i <> j ->
  raw_items parsedData !! i = Some li -> truthy (item_id_of li) = false ->
  raw_items parsedData !! j = Some lj -> truthy (item_id_of lj) = false ->
  items !! i = Some item -> items !! j = Some other ->
  item_id_of other <> item_id_of item.
Proof.
  intros H Hij Hli Hfi Hlj Hfj Hitem Hother Heq.
  pose proof (reconcile_items_identity _ _ _ _ _ _ _ _ H Hli Hitem) as [[Ht _]|[_ [t Hid]]];
    [congruence|].
  pose proof (reconcile_items_identity _ _ _ _ _ _ _ _ H Hlj Hother) as [[Ht _]|[_ [t' Hid']]];
    [congruence|].
  rewrite Hid, Hid' in Heq.
  assert (Hmint : minted_id t' j = minted_id t i) by congruence.
  apply minted_id_index in Hmint. congruence.
Qed.

(** C5, as the specification states it, fails: with one prior item [a],
    two extracted items that both carry the unmatched identifier [zzz] keep
    it, so neither gets a minted identifier and the two collide. *)
Lemma identity_resolved_against_prior_counterexample :
  ~ Claimed.identity_resolved_against_prior.
Proof.
  intros Hclaim.
  eassert (Hrun : parse_endpoint (answering (Some unmatched_ids_text))
                    (editing "add pipes" one_prior_item_text) initial_state
                  = (Return _, _))
    by (vm_compute; reflexivity).
  eassert (Hjson : JSON_parse (field_or (Some unmatched_ids_text) "{}") = Some _)
    by (vm_compute; reflexivity).
  assert (Hprior : Claimed.prior_ids (editing "add pipes" one_prior_item_text) <> [])
    by (vm_compute; discriminate).
  pose proof (Hclaim (answering (Some unmatched_ids_text))
                (editing "add pipes" one_prior_item_text) initial_state
                (Some unmatched_ids_text) _ _ _ Hprior (fun _ => eq_refl) Hjson Hrun eq_refl
                0 _ _ eq_refl eq_refl) as [_ Hmint].
  destruct Hmint as [_ Hunique].
  - vm_compute. intros [H|[]]. discriminate.
  - apply (Hunique 1 _ ltac:(lia) eq_refl). reflexivity.
Qed.

(** C5, amended.  In every successful parse/edit request, with or without
    prior items, an extracted item whose [item_id] is truthy (a non-empty
    string) keeps it verbatim, whether or not it matches a prior item; an
    extracted item whose [item_id] is missing or falsy is assigned the
    minted identifier [L<Date.now()>-<index>], which differs from the
    identifier minted for every other such item of the same pass.  The
    prior items are not consulted. *)
Theorem identity_from_extraction env req st response_text parsedData resp st' i li item :
  (forall g, generateContent env g = Fulfilled response_text) ->
  JSON_parse (field_or response_text "{}") = Some parsedData ->
  parse_endpoint env req st = (Return resp, st') ->
  status resp = 200 ->
  raw_items parsedData !! i = Some li ->
  line_items_of (body resp) !! i = Some item ->
  (truthy (item_id_of li) = true -> item_id_of item = item_id_of li) /\
  (truthy (item_id_of li) = false ->
   (exists t, item_id_of item = VStr (minted_id t i)) /\
   forall j lj other,
     j <> i ->
     raw_items parsedData !! j = Some lj ->
     truthy (item_id_of lj) = false ->
     line_items_of (body resp) !! j = Some other ->
     item_id_of other <> item_id_of item).
Proof.
  intros Hgen Hjson H Hstatus Hli Hitem.
  apply parse_endpoint_success in H as (id & result & st1 & Hb & -> & _); [|assumption].
  apply build_result_return in Hb
    as (edit & parts & sta & t & parsedData' & items & stb & _ & _ & Hg & Hjson' & Hitems & _ & ->).
  rewrite Hgen in Hg. inversion Hg; subst.
  rewrite Hjson in Hjson'. inversion Hjson'; subst.
  change (line_items_of _) with items in *.
  pose proof (reconcile_items_identity _ _ _ _ _ _ _ _ Hitems Hli Hitem) as Hid.
  split.
  - intros Ht. destruct Hid as [[_ Hid]|[Hf _]]; [exact Hid | congruence].
  - intros Hf. split.
    + destruct Hid as [[Ht _]|[_ Hid]]; [congruence | exact Hid].
    + intros j lj other Hji Hlj Hfj Hother.
      eapply (minted_ids_differ _ _ _ _ _ i j); eauto.
Qed.

Lemma identity_from_extraction_witness :
  exists resp st' item,
    parse_endpoint (answering (Some two_items_text))
      (editing "add a pipe" one_prior_item_text) initial_state = (Return resp, st') /\
    line_items_of (body resp) !! 1 = Some item /\
    exists t, item_id_of item = VStr (minted_id t 1).
Proof.
  eexists _, _, _. split; [vm_compute; reflexivity|]. split; [reflexivity|].
  refine (proj1 (proj2 (identity_from_extraction (answering (Some two_items_text))
                          (editing "add a pipe" one_prior_item_text) initial_state
                          (Some two_items_text)
                          (VObj [("line_items",
                                  VArr [VObj [("item_id", VStr "a")];
                                        VObj [("quantity", VNum (Finite (inject_Z 5)))]])])
                          _ _ 1 _ _
                          (fun _ => eq_refl) eq_refl eq_refl eq_refl eq_refl eq_refl)
                   eq_refl)).
Defined.

(** C6, as the specification states it, fails: a duplicated identifier in
    the extraction output is duplicated in the produced list. *)
Lemma item_ids_distinct_counterexample : ~ Claimed.item_ids_distinct.
Proof.
  intros Hclaim.
  eassert (Hrun : reconcile_items (answering None)
                    (VObj [("line_items",
                            VArr [VObj [("item_id", VStr "a")];
                                  VObj [("item_id", VStr "a")]])])
                    initial_state = (Return _, _))
    by (vm_compute; reflexivity).
  apply Hclaim in Hrun. vm_compute in Hrun.
  apply NoDup_cons in Hrun as [Hnotin _]. apply Hnotin. left.
Qed.

Lemma JSON_parse_duplicate_ids_text :
  JSON_parse duplicate_ids_text
  = Some (VObj [("line_items",
                 VArr [VObj [("item_id", VStr "a")]; VObj [("item_id", VStr "a")]])]).
Proof. vm_compute. reflexivity. Qed.

(** C6, amended.  The [item_id] values of a produced list are pairwise
    distinct provided the truthy identifiers carried by the extraction
    output are pairwise distinct and none of them equals an identifier
    minted in the same pass; the identifiers minted in one pass always
    differ from one another.  Identifiers duplicated in the extraction
    output are passed through. *)
Theorem item_ids_distinct_when_extracted_are env parsedData st items st' :
  reconcile_items env parsedData st = (Return items, st') ->
  (forall i j li lj,
     i <> j ->
     raw_items parsedData !! i = Some li -> truthy (item_id_of li) = true ->
     raw_items parsedData !! j = Some lj -> truthy (item_id_of lj) = true ->
     item_id_of li <> item_id_of lj) ->
  (forall i j li lj other,
     raw_items parsedData !! i = Some li -> truthy (item_id_of li) = true ->
     raw_items parsedData !! j = Some lj -> truthy (item_id_of lj) = false ->
     items !! j = Some other ->
     item_id_of li <> item_id_of other) ->
  NoDup (item_id_of <$> items).
Proof.
  intros H Hcarried Hfresh.
  pose proof (reconcile_items_lookup _ _ _ _ _ H) as [Hlen _].
  apply NoDup_alt. intros i j x Hi Hj.
  apply list_lookup_fmap_Some in Hi as (item & -> & Hitem).
  apply list_lookup_fmap_Some in Hj as (other & Heq & Hother).
  destruct (decide (i = j)) as [|Hij]; [assumption|exfalso].
  destruct (lookup_lt_is_Some_2 (raw_items parsedData) i) as [li Hli];
    [rewrite <- Hlen; eapply lookup_lt_Some; eassumption|].
  destruct (lookup_lt_is_Some_2 (raw_items parsedData) j) as [lj Hlj];
    [rewrite <- Hlen; eapply lookup_lt_Some; eassumption|].
  pose proof (reconcile_items_identity _ _ _ _ _ _ _ _ H Hli Hitem) as Hidi.
  pose proof (reconcile_items_identity _ _ _ _ _ _ _ _ H Hlj Hother) as Hidj.
  destruct (truthy (item_id_of li)) eqn:Hti, (truthy (item_id_of lj)) eqn:Htj.
  - destruct Hidi as [[_ Hidi]|[? _]]; [|congruence].
    destruct Hidj as [[_ Hidj]|[? _]]; [|congruence].
    apply (Hcarried i j li lj); congruence.
  - destruct Hidi as [[_ Hidi]|[? _]]; [|congruence].
    apply (Hfresh i j li lj other); congruence.
  - destruct Hidj as [[_ Hidj]|[? _]]; [|congruence].
    apply (Hfresh j i lj li item); congruence.
  - apply (minted_ids_differ _ _ _ _ _ i j li lj item other H); auto.
Qed.

Lemma item_ids_distinct_when_extracted_are_witness :
  exists items st',
    reconcile_items (answering None)
      (VObj [("line_items",
              VArr [VObj [("item_id", VStr "a")];
                    VObj [("quantity", VNum (Finite (inject_Z 5)))]])])
      initial_state = (Return items, st') /\
    NoDup (item_id_of <$> items).
Proof.
  eexists _, _. split; [vm_compute; reflexivity|].
  apply (item_ids_distinct_when_extracted_are (answering None)
           (VObj [("line_items",
                   VArr [VObj [("item_id", VStr "a")];
                         VObj [("quantity", VNum (Finite (inject_Z 5)))]])])
           initial_state _ _ eq_refl).
  - intros [|[|i]] [|[|j]] li lj Hij Hli Hti Hlj Htj; simpl in *;
      try congruence; inversion Hli; inversion Hlj; subst; discriminate.
  - intros [|[|i]] [|[|j]] li lj other Hli Hti Hlj Htj Hother; simpl in *;
      try discriminate; inversion Hli; inversion Hlj; inversion Hother; subst;
      try discriminate.
Defined.

(** * The serialized record (C4) *)

Lemma serialized_obj fields : serialized (VObj fields) = Some (VObj (kept fields)).
Proof.
  simpl. do 2 f_equal. unfold kept.
  induction fields as [|[k x] rest IH]; simpl; [reflexivity|].
  destruct (serialized x); simpl; rewrite IH; reflexivity.
Qed.

Lemma kept_cons_some k x y rest :
  serialized x = Some y -> kept ((k, x) :: rest) = (k, y) :: kept rest.
Proof. intros H. unfold kept. simpl. rewrite H. reflexivity. Qed.

Lemma kept_cons_none k x rest :
  serialized x = None -> kept ((k, x) :: rest) = kept rest.
Proof. intros H. unfold kept. simpl. rewrite H. reflexivity. Qed.



Lemma opt_get_obj fields k :
  opt_get (VObj fields) k = default VUndefined (lookup_field k fields).
Proof. reflexivity. Qed.










Lemma quantity_not_serialized_when_absent :
  exists resp st' wire witem,
    parse_endpoint (answering (Some two_items_text)) (creating "two pipes") initial_state
      = (Return resp, st') /\
    serialized (body resp) = Some wire /\
    line_items_of wire !! 0 = Some witem /\
    keys witem = ["item_id"; "line"; "description"; "material_grade"; "size"].
Proof. eexists _, _, _, _. vm_compute. repeat split. Qed.



(** * GET /api/rfq/:id (C9) *)

(** An identifier that was never stored and is not a property name of
    [Object.prototype] is answered with 404 and the message Not found. *)
Lemma get_rfq_unknown id st :
  pristine (rfqStore st) ->
  own (rfqStore st) !! id = None ->
  inherited_name id = false ->
  get_rfq id st = (Return not_found, st).
Proof.
  unfold pristine, get_rfq, store_read, inherited_from_object, inherited_name.
  intros Hproto Hown Hname. rewrite Hown, Hproto.
  apply orb_false_iff in Hname as [H1 H2]. rewrite H1, H2. reflexivity.
Qed.

Lemma store_write_no_own_proto s id fields :
  no_own_proto s -> no_own_proto (store_write s id fields).
Proof.
  unfold no_own_proto, store_write. intros Hs.
  destruct (String.eqb id "__proto__") eqn:Hid; simpl; [exact Hs|].
  apply String.eqb_neq in Hid. rewrite lookup_insert_ne by exact Hid. exact Hs.
Qed.

(** Reading the key just written gives the record written, whatever the
    key. *)
Lemma store_read_write s id fields :
  no_own_proto s ->
  lookup_field "__proto__" fields = None ->
  store_read (store_write s id fields) id = VObj fields.
Proof.
  intros Hs Hfields. unfold store_read, store_write.
  destruct (String.eqb id "__proto__") eqn:Hid; simpl.
  - apply String.eqb_eq in Hid. subst id. rewrite Hs, Hfields. reflexivity.
  - rewrite lookup_insert_eq. reflexivity.
Qed.

Lemma empty_store_no_own_proto : no_own_proto empty_store.
Proof. reflexivity. Qed.

Lemma parse_endpoint_no_own_proto env req st resp st' :
  no_own_proto (rfqStore st) ->
  parse_endpoint env req st = (Return resp, st') ->
  no_own_proto (rfqStore st').
Proof.
  intros Hs H.
  destruct (parse_endpoint_cases env req st)
    as [(id & result & st1 & _ & Hst & H')|(e & st1 & _ & Hst & H')];
    rewrite H' in H; inversion H; subst; simpl.
  - rewrite Hst. apply store_write_no_own_proto. exact Hs.
  - rewrite Hst. exact Hs.
Qed.

(** The record stored by a successful parse/edit request is what GET
    returns for its identifier, with status 200, also when it has no line
    items. *)
Lemma get_rfq_after_parse env req st resp st' :
  no_own_proto (rfqStore st) ->
  parse_endpoint env req st = (Return resp, st') ->
  status resp = 200 ->
  exists id,
    opt_get (body resp) "rfq_id" = VStr id /\
    get_rfq id st' = (Return (MkResponse 200 (body resp)), st').
Proof.
  intros Hs H Hstatus.
  apply parse_endpoint_success in H as (id & result & st1 & Hb & -> & Hst); [|assumption].
  apply build_result_return in Hb
    as (edit & parts & sta & t & parsedData & items & stb & _ & _ & _ & _ & _ & _ & ->).
  exists id. split; [reflexivity|].
  unfold get_rfq. rewrite Hst, store_read_write by (assumption || reflexivity).
  reflexivity.
Qed.

Lemma get_rfq_empty_rfq :
  exists resp st',
    parse_endpoint (answering None) (creating "a pipe") initial_state = (Return resp, st') /\
    line_items_of (body resp) = [] /\
    get_rfq "RFQ-0123" st' = (Return (MkResponse 200 (body resp)), st').
Proof. eexists _, _. vm_compute. repeat split. Qed.

(** Every property name of [Object.prototype] is found by the lookup on a
    store that never held it. *)
Lemma get_rfq_inherited id st :
  pristine (rfqStore st) ->
  own (rfqStore st) !! id = None ->
  inherited_name id = true ->
  exists v, get_rfq id st = (Return (MkResponse 200 v), st) /\
            (v = VNative ObjectPrototype \/ v = VNative (BuiltinFunction id)).
Proof.
  unfold pristine, get_rfq, store_read, inherited_from_object, inherited_name.
  intros Hproto Hown Hname. rewrite Hown, Hproto.
  destruct (String.eqb id "__proto__"); simpl in *.
  - eexists. split; [reflexivity|]. left; reflexivity.
  - rewrite Hname. eexists. split; [reflexivity|]. right; reflexivity.
Qed.

(** C9.  On a server that has stored nothing, GET /api/rfq/constructor is
    not answered with 404 and Not found: the lookup [rfqStore[id]] finds the
    function inherited from [Object.prototype], which is truthy, and the
    handler answers with status 200 and that function as the record (of
    which [res.json] prints nothing). *)
Theorem get_rfq_constructor_found :
  own (rfqStore initial_state) !! "constructor" = None /\
  get_rfq "constructor" initial_state
  = (Return (MkResponse 200 (VNative (BuiltinFunction "constructor"))), initial_state) /\
  serialized (VNative (BuiltinFunction "constructor")) = None /\
  get_rfq "constructor" initial_state <> (Return not_found, initial_state).
Proof.
  split; [reflexivity|]. split; [reflexivity|]. split; [reflexivity|].
  intros H. vm_compute in H. discriminate.
Qed.

(** * POST /api/rfqs/:id/quotes *)

Lemma inherited_from_object_other id :
  inherited_name id = false -> inherited_from_object None id = VUndefined.
Proof.
  unfold inherited_name, inherited_from_object. intros H.
  apply orb_false_iff in H as [H1 H2]. rewrite H1, H2. reflexivity.
Qed.

Lemma inherited_from_object_truthy id :
  inherited_name id = true -> truthy (inherited_from_object None id) = true.
Proof.
  unfold inherited_name, inherited_from_object. intros H.
  destruct (String.eqb id "__proto__"); [reflexivity|].
  rewrite orb_false_l in H. rewrite H. reflexivity.
Qed.

(** What one submission does, for an identifier that is not a property
    name of [Object.prototype]. *)
Lemma submit_quote_step id quote quoteStore :
  inherited_name id = false ->
  submit_quote id quote quoteStore
  = (Return quote_accepted, <[id := (quotes_of quoteStore id ++ [quote])%list]> quoteStore).
Proof.
  intros Hid. unfold submit_quote, quote_read, quotes_of.
  destruct (quoteStore !! id) as [quotes|] eqn:Hq; simpl.
  - rewrite Hq. reflexivity.
  - rewrite (inherited_from_object_other id Hid). simpl.
    rewrite lookup_insert_eq, insert_insert_eq. reflexivity.
Qed.

Lemma submit_quote_inherited id quote quoteStore :
  inherited_name id = true ->
  quoteStore !! id = None ->
  submit_quote id quote quoteStore
  = (Throw (Exception TypeError "quoteStore[id].push is not a function"), quoteStore).
Proof.
  intros Hid Hq. unfold submit_quote, quote_read. rewrite Hq.
  rewrite (inherited_from_object_truthy id Hid), Hq. reflexivity.
Qed.

Lemma submit_quote_no_inherited_keys id quote quoteStore :
  no_inherited_keys quoteStore ->
  no_inherited_keys (snd (submit_quote id quote quoteStore)).
Proof.
  intros Hinv. destruct (inherited_name id) eqn:Hid.
  - rewrite (submit_quote_inherited id quote quoteStore Hid (Hinv id Hid)). exact Hinv.
  - rewrite (submit_quote_step id quote quoteStore Hid). simpl.
    intros id' Hid'. rewrite lookup_insert_ne by congruence. apply Hinv, Hid'.
Qed.

Lemma submit_all_no_inherited_keys history : forall quoteStore,
  no_inherited_keys quoteStore -> no_inherited_keys (submit_all history quoteStore).
Proof.
  induction history as [|[id quote] rest IH]; simpl; intros quoteStore Hinv; [exact Hinv|].
  apply IH, submit_quote_no_inherited_keys, Hinv.
Qed.

Lemma empty_no_inherited_keys : no_inherited_keys ∅.
Proof. intros id _. apply lookup_empty. Qed.

(** X1.  A quote submitted under an identifier that is not a property name
    of [Object.prototype] is always accepted, whether or not an RFQ or
    earlier quotes exist for it: the answer is [{success: true}], the quote
    is put after the quotes already held for that identifier, and the
    quotes of every other identifier stay as they were. *)
Theorem submit_quote_appends id quote quoteStore :
  inherited_name id = false ->
  exists quoteStore',
    submit_quote id quote quoteStore = (Return quote_accepted, quoteStore') /\
    quotes_of quoteStore' id = (quotes_of quoteStore id ++ [quote])%list /\
    forall other, other <> id -> quoteStore' !! other = quoteStore !! other.
Proof.
  intros Hid. eexists. split; [apply submit_quote_step, Hid|]. split.
  - unfold quotes_of at 1. rewrite lookup_insert_eq. reflexivity.
  - intros other Hother. apply lookup_insert_ne. congruence.
Qed.

Lemma submit_quote_appends_witness :
  exists quoteStore',
    submit_quote "RFQ-0123" (VObj [("price", VNum (Finite (inject_Z 7)))])
      {["RFQ-0123" := [VStr "first"]]} = (Return quote_accepted, quoteStore') /\
    quotes_of quoteStore' "RFQ-0123"
    = [VStr "first"; VObj [("price", VNum (Finite (inject_Z 7)))]].
Proof.
  destruct (submit_quote_appends "RFQ-0123" (VObj [("price", VNum (Finite (inject_Z 7)))])
              {["RFQ-0123" := [VStr "first"]]} eq_refl) as (qs & Hrun & Hquotes & _).
  exists qs. split; [exact Hrun|]. rewrite Hquotes. reflexivity.
Defined.

Lemma submitted_for_cons id id0 quote rest :
  submitted_for id ((id0, quote) :: rest)
  = if decide (id0 = id) then quote :: submitted_for id rest else submitted_for id rest.
Proof.
  unfold submitted_for. rewrite filter_cons. simpl.
  destruct (decide (id0 = id)); reflexivity.
Qed.

Lemma submit_all_quotes history : forall quoteStore id,
  no_inherited_keys quoteStore ->
  inherited_name id = false ->
  quotes_of (submit_all history quoteStore) id
  = (quotes_of quoteStore id ++ submitted_for id history)%list.
Proof.
  induction history as [|[id0 quote] rest IH]; intros quoteStore id Hinv Hid; simpl.
  - unfold submitted_for. simpl. rewrite app_nil_r. reflexivity.
  - rewrite IH by (auto using submit_quote_no_inherited_keys).
    rewrite submitted_for_cons.
    destruct (inherited_name id0) eqn:Hid0.
    + rewrite (submit_quote_inherited id0 quote quoteStore Hid0 (Hinv id0 Hid0)). simpl.
      destruct (decide (id0 = id)) as [->|_]; [congruence | reflexivity].
    + rewrite (submit_quote_step id0 quote quoteStore Hid0). simpl.
      destruct (decide (id0 = id)) as [->|Hne].
      * unfold quotes_of at 1. rewrite lookup_insert_eq. simpl.
        rewrite <- app_assoc. reflexivity.
      * unfold quotes_of at 1. rewrite lookup_insert_ne by exact Hne. reflexivity.
Qed.

(** X2.  After any history of submissions to a server that started with no
    quotes, the quotes held for an identifier (not a property name of
    [Object.prototype]) are exactly the quotes submitted for it, in arrival
    order: none is lost, reordered, or filed under another identifier. *)
Theorem quotes_in_arrival_order history id :
  inherited_name id = false ->
  quotes_of (submit_all history ∅) id = submitted_for id history.
Proof.
  intros Hid. rewrite submit_all_quotes by (auto using empty_no_inherited_keys).
  reflexivity.
Qed.

Lemma quotes_in_arrival_order_witness :
  quotes_of (submit_all [("a", VStr "q1"); ("b", VStr "q2"); ("a", VStr "q3")] ∅) "a"
  = [VStr "q1"; VStr "q3"].
Proof.
  rewrite (quotes_in_arrival_order
             [("a", VStr "q1"); ("b", VStr "q2"); ("a", VStr "q3")] "a" eq_refl).
  reflexivity.
Defined.

(** X3.  After any history of submissions, a quote submitted under a
    property name of [Object.prototype] (constructor, toString, __proto__,
    ...) is not accepted: [quoteStore[id]] finds the inherited value, which
    has no [push], the handler throws a TypeError, and [quoteStore] is left
    as it was. *)
Theorem submit_quote_inherited_name_throws history id quote :
  inherited_name id = true ->
  submit_quote id quote (submit_all history ∅)
  = (Throw (Exception TypeError "quoteStore[id].push is not a function"),
     submit_all history ∅).
Proof.
  intros Hid. apply submit_quote_inherited; [exact Hid|].
  apply (submit_all_no_inherited_keys history ∅ empty_no_inherited_keys id Hid).
Qed.

Lemma submit_quote_inherited_name_throws_witness :
  fst (submit_quote "constructor" (VStr "q") (submit_all [("a", VStr "q1")] ∅))
  = Throw (Exception TypeError "quoteStore[id].push is not a function").
Proof.
  rewrite (submit_quote_inherited_name_throws [("a", VStr "q1")] "constructor" (VStr "q")
             eq_refl).
  reflexivity.
Defined.

(** * POST /api/buyer/clarify *)

Create HintDb stateless discriminated.

Lemma stateless_ret {A} (a : A) : stateless (ret a).
Proof. intros st r st' H; inversion H; reflexivity. Qed.

Lemma stateless_throw {A} n msg : stateless (@throw A n msg).
Proof. intros st r st' H; inversion H; reflexivity. Qed.

Lemma stateless_lift {A} (r : result A) : stateless (lift r).
Proof. intros st r' st' H; inversion H; reflexivity. Qed.

Lemma stateless_bind {A B} (m : M A) (k : A -> M B) :
  stateless m -> (forall a, stateless (k a)) -> stateless (bind m k).
Proof.
  intros Hm Hk st r st'. unfold bind.
  destruct (m st) as [[a|e] st1] eqn:Hst.
  - intros H. apply Hk in H. apply Hm in Hst. congruence.
  - intros H; inversion H; subst. eapply Hm; eassumption.
Qed.

Lemma stateless_settle outcome : stateless (settle outcome).
Proof. destruct outcome; simpl; [apply stateless_ret | apply stateless_throw]. Qed.

#[global] Hint Resolve stateless_ret stateless_throw stateless_lift stateless_settle
  : stateless.
#[global] Hint Extern 2 (stateless (bind _ _)) => apply stateless_bind; [|intros]
  : stateless.

Lemma stateless_sample_line i : stateless (sample_line i).
Proof. unfold sample_line. auto 10 with stateless. Qed.

#[global] Hint Resolve stateless_sample_line : stateless.

Lemma stateless_sample_lines items : stateless (sample_lines items).
Proof. induction items; simpl; auto 10 with stateless. Qed.

#[global] Hint Resolve stateless_sample_lines : stateless.

Lemma stateless_clarify_summary rfq : stateless (clarify_summary rfq).
Proof.
  unfold clarify_summary. apply stateless_bind; [auto with stateless|].
  intros [| | | | |items| |]; auto 10 with stateless.
Qed.

#[global] Hint Resolve stateless_clarify_summary : stateless.

Lemma stateless_clarify_pipeline summarize body :
  stateless (clarify_pipeline summarize body).
Proof. unfold clarify_pipeline. auto 20 with stateless. Qed.

Lemma sample_line_return i st line st' :
  sample_line i st = (Return line, st') -> sample_of i line.
Proof.
  unfold sample_line. intros H.
  apply bind_return in H as (quantity & st1 & Hq & H).
  apply lift_return in Hq as [Hq ->]. apply get_return in Hq as [-> Hi].
  apply bind_return in H as (q & st2 & Hq & H). apply lift_return in Hq as [Hq ->].
  apply bind_return in H as (u & st3 & Hu & H). apply lift_return in Hu as [Hu ->].
  apply bind_return in H as (d & st4 & Hd & H). apply lift_return in Hd as [Hd ->].
  apply ret_return in H as [-> _].
  split; [exact Hi|]. exists q, u, d. repeat split; assumption.
Qed.

Lemma sample_lines_return items : forall st lines st',
  sample_lines items st = (Return lines, st') -> Forall2 sample_of items lines.
Proof.
  induction items as [|i rest IH]; simpl; intros st lines st' H.
  - apply ret_return in H as [-> _]. constructor.
  - apply bind_return in H as (line & st1 & Hline & H).
    apply bind_return in H as (lines' & st2 & Hrest & H).
    apply ret_return in H as [-> _].
    constructor; [eapply sample_line_return | eapply IH]; eassumption.
Qed.

(** The steps a completed [try] block of the clarify handler went
    through. *)
Lemma clarify_pipeline_return summarize body st resp st' :
  clarify_pipeline summarize body st = (Return resp, st') ->
  exists items language samples action response_text,
    opt_get (opt_get body "rfq") "line_items" = VArr items /\
    to_string (js_or (opt_get body "lang") (VStr "en")) = Return language /\
    Forall2 sample_of (take 3 items) samples /\
    to_string (opt_get body "userMessage") = Return action /\
    summarize (MkClarifyRequest language (length items) samples action)
    = Fulfilled response_text /\
    resp = message_response response_text.
Proof.
  unfold clarify_pipeline. intros H.
  apply bind_return in H as (rfq & st1 & Hrfq & H).
  apply lift_return in Hrfq as [Hrfq ->]. apply get_return in Hrfq as [-> _].
  apply bind_return in H as (language & st2 & Hlang & H).
  apply lift_return in Hlang as [Hlang ->].
  apply bind_return in H as ([count samples] & st3 & Hsum & H).
  apply bind_return in H as (action & st4 & Haction & H).
  apply lift_return in Haction as [Haction ->].
  apply bind_return in H as (response_text & st5 & Hcall & H).
  apply ret_return in H as [-> _].
  unfold clarify_summary in Hsum.
  apply bind_return in Hsum as (line_items & st6 & Hli & Hsum).
  apply lift_return in Hli as [Hli ->]. apply get_return in Hli as [-> _].
  destruct (opt_get (opt_get body "rfq") "line_items") as [| | | | |items| |] eqn:Hitems;
    try (unfold throw in Hsum; discriminate).
  apply bind_return in Hsum as (lines & st7 & Hlines & Hsum).
  apply ret_return in Hsum as [Hsum _]. inversion Hsum; subst.
  apply sample_lines_return in Hlines.
  simpl in Hcall.
  destruct (summarize (MkClarifyRequest language (length items) lines action))
    as [t|msg] eqn:Hg; [|unfold settle, throw in Hcall; discriminate].
  apply ret_return in Hcall as [-> _].
  exists items, language, lines, action, t. repeat split; assumption.
Qed.

(** X4.  The clarify handler never answers with an error and changes no
    state: whatever the body and whatever the summarizer does, the answer
    has status 200 and is either the summarizer's text for some request it
    fulfilled, or the fixed confirmation message. *)
Theorem clarify_always_answers summarize body st :
  exists resp,
    clarify_endpoint summarize body st = (Return resp, st) /\
    status resp = 200 /\
    (resp = clarify_fallback \/
     exists g response_text,
       summarize g = Fulfilled response_text /\ resp = message_response response_text).
Proof.
  unfold clarify_endpoint, try_catch.
  destruct (clarify_pipeline summarize body st) as [[resp|e] st'] eqn:H.
  - pose proof (stateless_clarify_pipeline summarize body _ _ _ H) as ->.
    apply clarify_pipeline_return in H
      as (items & language & samples & action & t & _ & _ & _ & _ & Hg & ->).
    eexists. split; [reflexivity|]. split; [reflexivity|]. right. eauto.
  - pose proof (stateless_clarify_pipeline summarize body _ _ _ H) as ->.
    exists clarify_fallback. split; [reflexivity|]. split; [reflexivity|]. left. reflexivity.
Qed.

(** X5.  Whenever the clarify handler reaches the summarizer, the summary
    it sends counts all line items of the RFQ but samples only the first
    three, in order, each as its quantity, unit and description separated
    by spaces. *)
Theorem clarify_summary_shape summarize body st resp st' :
  clarify_pipeline summarize body st = (Return resp, st') ->
  exists items g response_text,
    opt_get (opt_get body "rfq") "line_items" = VArr items /\
    summarize g = Fulfilled response_text /\
    resp = message_response response_text /\
    c_item_count g = length items /\
    length (c_items_sample g) = Nat.min 3 (length items) /\
    forall k i, k < 3 -> items !! k = Some i ->
      exists line, c_items_sample g !! k = Some line /\ sample_of i line.
Proof.
  intros H. apply clarify_pipeline_return in H
    as (items & language & samples & action & t & Hitems & _ & Hsamples & _ & Hg & ->).
  exists items, (MkClarifyRequest language (length items) samples action), t.
  split; [exact Hitems|]. split; [exact Hg|]. split; [reflexivity|].
  split; [reflexivity|]. simpl. split.
  - rewrite <- (Forall2_length _ _ _ Hsamples), length_take. reflexivity.
  - intros k i Hk Hi.
    assert (Htake : take 3 items !! k = Some i) by (rewrite lookup_take_lt; assumption).
    destruct (Forall2_lookup_l _ _ _ _ _ Hsamples Htake) as (line & Hline & Hof). eauto.
Qed.

Lemma clarify_summary_shape_witness :
  exists resp st' g,
    clarify_pipeline (fun _ => Fulfilled (Some "Done."))
      (clarify_body
         (VObj [("line_items",
                 VArr [VObj [("quantity", VNum (Finite (inject_Z 5))); ("uom", VStr "pcs");
                             ("description", VStr "pipe")];
                       VStr "b"; VStr "c"; VNull])])
         (VStr "delete line 2") VUndefined)
      initial_state = (Return resp, st') /\
    c_item_count g = 4 /\ length (c_items_sample g) = 3.
Proof.
  destruct (clarify_summary_shape (fun _ => Fulfilled (Some "Done."))
              (clarify_body
                 (VObj [("line_items",
                         VArr [VObj [("quantity", VNum (Finite (inject_Z 5)));
                                     ("uom", VStr "pcs"); ("description", VStr "pipe")];
                               VStr "b"; VStr "c"; VNull])])
                 (VStr "delete line 2") VUndefined)
              initial_state _ _ eq_refl)
    as (items & g & t & Hitems & _ & _ & Hcount & Hlen & _).
  vm_compute in Hitems. inversion Hitems; subst items.
  eexists _, _, g. split; [reflexivity|]. split; [exact Hcount | exact Hlen].
Defined.

(** X6.  A clarify body whose [rfq.line_items] is not an array (no [rfq],
    no [line_items], a string, an object, ...) gets the fixed confirmation
    message with status 200; the summarizer's answer is not used and no
    error is reported. *)
Theorem clarify_without_items_falls_back summarize body st :
  (forall items, opt_get (opt_get body "rfq") "line_items" <> VArr items) ->
  clarify_endpoint summarize body st = (Return clarify_fallback, st).
Proof.
  intros Hnot. unfold clarify_endpoint, try_catch.
  destruct (clarify_pipeline summarize body st) as [[resp|e] st'] eqn:H.
  - apply clarify_pipeline_return in H as (items & ? & ? & ? & ? & Hitems & _).
    destruct (Hnot items Hitems).
  - pose proof (stateless_clarify_pipeline summarize body _ _ _ H) as ->. reflexivity.
Qed.

Lemma clarify_without_items_falls_back_witness :
  clarify_endpoint (fun _ => Fulfilled (Some "Done."))
    (clarify_body (VObj [("line_items", VStr "abc")]) (VStr "delete line 2") (VStr "en"))
    initial_state
  = (Return clarify_fallback, initial_state).
Proof.
  apply clarify_without_items_falls_back. intros items H. vm_compute in H. discriminate.
Defined.

(** * More on POST /api/buyer/parse *)


Lemma request_among_others_witness :
  exists resp st',
    parse_endpoint_among (answering None)
      (fun st => set_rfqStore (store_write (rfqStore st) "other" []) st)
      (MkParseRequest (Some "a pipe") None None None (Some "mine") []) initial_state
    = (Return resp, st') /\
    status resp = 200 /\
    store_read (rfqStore st') "other" = VObj [] /\
    store_read (rfqStore st') "mine" = body resp.
Proof.
  eexists _, _. split; [vm_compute; reflexivity|].
  destruct (request_among_others (answering None)
              (fun st => set_rfqStore (store_write (rfqStore st) "other" []) st)
              (MkParseRequest (Some "a pipe") None None None (Some "mine") [])
              initial_state _ _ eq_refl)
    as [[Hstatus _]|(g & st1 & id & result & _ & _ & [(Hstatus & _)|(Hstatus & _)])];
    [discriminate Hstatus| |discriminate Hstatus].
  split; [exact Hstatus|]. split; vm_compute; reflexivity.
Defined.

(** A successful request that names an [rfqId]: its record and where it
    went. *)
Lemma supplied_rfq_id_shared env req st resp st' s :
  rfqId req = Some s ->
  string_is_empty s = false ->
  parse_endpoint env req st = (Return resp, st') ->
  status resp = 200 ->
  exists result,
    body resp = VObj result /\
    rfqStore st' = store_write (rfqStore st) s result /\
    exists project_name params items,
      result = [("rfq_id", VStr s); ("project_name", project_name);
                ("commercial", commercial_of params); ("line_items", VArr items)].
Proof.
  intros Hid Hs H Hstatus.
  apply parse_endpoint_success in H as (id & result & st1 & Hb & -> & Hst); [|assumption].
  apply build_result_return in Hb
    as (edit & parts & sta & t & parsedData & items & stb & _ & _ & _ & _ & _ & Hchoose & ->).
  unfold choose_rfq_id in Hchoose. rewrite Hid, Hs in Hchoose.
  apply ret_return in Hchoose as [-> _].
  eexists. split; [reflexivity|]. split; [exact Hst|]. eauto.
Qed.

(** X9.  A request that names an [rfqId] keeps it: when it succeeds the
    returned record carries that identifier unchanged and the record is
    assigned under it, whether or not a record was already held there. *)
Theorem supplied_rfq_id_kept env req st resp st' s :
  rfqId req = Some s ->
  string_is_empty s = false ->
  parse_endpoint env req st = (Return resp, st') ->
  status resp = 200 ->
  opt_get (body resp) "rfq_id" = VStr s /\
  exists result, body resp = VObj result /\
                 rfqStore st' = store_write (rfqStore st) s result.
Proof.
  intros Hid Hs H Hstatus.
  apply parse_endpoint_success in H as (id & result & st1 & Hb & -> & Hst); [|assumption].
  apply build_result_return in Hb
    as (edit & parts & sta & t & parsedData & items & stb & _ & _ & _ & _ & _ & Hchoose & ->).
  unfold choose_rfq_id in Hchoose. rewrite Hid, Hs in Hchoose.
  apply ret_return in Hchoose as [-> _].
  split; [reflexivity|]. eexists. split; [reflexivity | exact Hst].
Qed.

Lemma supplied_rfq_id_kept_witness :
  exists resp st',
    parse_endpoint (answering (Some two_items_text))
      (MkParseRequest (Some "edit") None None None (Some "RFQ-7") []) initial_state
    = (Return resp, st') /\
    opt_get (body resp) "rfq_id" = VStr "RFQ-7".
Proof.
  eexists _, _. split; [vm_compute; reflexivity|].
  apply (supplied_rfq_id_kept (answering (Some two_items_text))
           (MkParseRequest (Some "edit") None None None (Some "RFQ-7") [])
           initial_state _ _ "RFQ-7" eq_refl eq_refl eq_refl eq_refl).
Defined.

(** X10.  What a successful parse/edit request stored is what GET returns
    for the identifier of the returned record, with status 200, whatever
    that identifier is and also when the record has no line items; a later
    successful request under the same identifier replaces it. *)
Theorem stored_rfq_is_returned env req st resp st' :
  no_own_proto (rfqStore st) ->
  parse_endpoint env req st = (Return resp, st') ->
  status resp = 200 ->
  exists id,
    opt_get (body resp) "rfq_id" = VStr id /\
    get_rfq id st' = (Return (MkResponse 200 (body resp)), st') /\
    forall env2 req2 resp2 st2,
      parse_endpoint env2 req2 st' = (Return resp2, st2) ->
      status resp2 = 200 ->
      opt_get (body resp2) "rfq_id" = VStr id ->
      get_rfq id st2 = (Return (MkResponse 200 (body resp2)), st2).
Proof.
  intros Hs H Hstatus.
  pose proof (parse_endpoint_no_own_proto _ _ _ _ _ Hs H) as Hs'.
  destruct (get_rfq_after_parse _ _ _ _ _ Hs H Hstatus) as (id & Hid & Hget).
  exists id. split; [exact Hid|]. split; [exact Hget|].
  intros env2 req2 resp2 st2 H2 Hstatus2 Hid2.
  destruct (get_rfq_after_parse _ _ _ _ _ Hs' H2 Hstatus2) as (id2 & Hid2' & Hget2).
  rewrite Hid2 in Hid2'. inversion Hid2'; subst. exact Hget2.
Qed.

Lemma stored_rfq_is_returned_witness :
  exists resp st',
    parse_endpoint (answering None) (creating "a pipe") initial_state = (Return resp, st') /\
    line_items_of (body resp) = [] /\
    get_rfq "RFQ-0123" st' = (Return (MkResponse 200 (body resp)), st').
Proof.
  eexists _, _. split; [vm_compute; reflexivity|]. split; [reflexivity|].
  destruct (stored_rfq_is_returned (answering None) (creating "a pipe") initial_state
              _ _ eq_refl eq_refl eq_refl) as (id & Hid & Hget & _).
  vm_compute in Hid. inversion Hid; subst id. exact Hget.
Defined.

(** X11.  A successful parse/edit request whose record identifier is not
    [__proto__] changes what GET answers for that identifier only: every
    other identifier is answered as before the request. *)
Theorem other_identifiers_untouched env req st resp st' id other :
  parse_endpoint env req st = (Return resp, st') ->
  status resp = 200 ->
  opt_get (body resp) "rfq_id" = VStr id ->
  id <> "__proto__" ->
  other <> id ->
  fst (get_rfq other st') = fst (get_rfq other st).
Proof.
  intros H Hstatus Hid Hproto Hother.
  apply parse_endpoint_success in H as (id' & result & st1 & Hb & -> & Hst); [|assumption].
  apply build_result_return in Hb
    as (edit & parts & sta & t & parsedData & items & stb & _ & _ & _ & _ & _ & _ & ->).
  simpl in Hid. inversion Hid; subst id'.
  assert (Hread : store_read (rfqStore st') other = store_read (rfqStore st) other).
  { rewrite Hst. unfold store_write.
    apply String.eqb_neq in Hproto. rewrite Hproto.
    unfold store_read. simpl. rewrite lookup_insert_ne by congruence. reflexivity. }
  unfold get_rfq. rewrite Hread.
  destruct (truthy (store_read (rfqStore st) other)); reflexivity.
Qed.

Lemma other_identifiers_untouched_witness :
  exists resp st',
    parse_endpoint (answering None)
      (MkParseRequest (Some "a pipe") None None None (Some "A") []) initial_state
    = (Return resp, st') /\
    fst (get_rfq "B" st') = Return not_found.
Proof.
  eexists _, _. split; [vm_compute; reflexivity|].
  refine (eq_trans (other_identifiers_untouched (answering None)
                      (MkParseRequest (Some "a pipe") None None None (Some "A") [])
                      initial_state _ _ "A" "B" eq_refl eq_refl eq_refl _ _) eq_refl);
    discriminate.
Defined.

(** X12.  A successful parse/edit request whose [rfqId] is [__proto__]
    stores no own property: the assignment replaces the prototype of
    [rfqStore] by the record, and from then on GET of the names rfq_id,
    commercial and line_items, where no record is stored under them,
    answers 200 with that field of the record instead of 404. *)
Theorem proto_identifier_exposes_fields env req st resp st' k :
  rfqId req = Some "__proto__" ->
  parse_endpoint env req st = (Return resp, st') ->
  status resp = 200 ->
  In k ["rfq_id"; "commercial"; "line_items"] ->
  own (rfqStore st) !! k = None ->
  own (rfqStore st') = own (rfqStore st) /\
  get_rfq k st' = (Return (MkResponse 200 (opt_get (body resp) k)), st').
Proof.
  intros Hid H Hstatus Hk Hown.
  destruct (supplied_rfq_id_shared env req st resp st' "__proto__" Hid eq_refl H Hstatus)
    as (result & Hbody & Hst & Hshape).
  destruct Hshape as (pn & com & items & ->).
  rewrite Hbody. unfold get_rfq. rewrite Hst. unfold store_write, store_read. simpl.
  split; [reflexivity|]. rewrite Hown.
  destruct Hk as [<-|[<-|[<-|[]]]]; reflexivity.
Qed.

Lemma proto_identifier_exposes_fields_witness :
  exists resp st',
    parse_endpoint (answering (Some two_items_text))
      (MkParseRequest (Some "a pipe") None None None (Some "__proto__") []) initial_state
    = (Return resp, st') /\
    own (rfqStore st') = ∅ /\
    get_rfq "line_items" st'
    = (Return (MkResponse 200 (opt_get (body resp) "line_items")), st').
Proof.
  eexists _, _. split; [vm_compute; reflexivity|].
  apply (proto_identifier_exposes_fields (answering (Some two_items_text))
           (MkParseRequest (Some "a pipe") None None None (Some "__proto__") [])
           initial_state _ _ "line_items" eq_refl eq_refl eq_refl).
  - right; right; left; reflexivity.
  - reflexivity.
Defined.

(** X13.  When [currentLineItems] is valid JSON for null, the request
    fails at once: [currentItems.length] throws, the answer is 500 with the
    error's message, and nothing else has happened: no upload was read or
    deleted, the clock was not read, nothing was stored. *)
Theorem null_current_items_fails env req st s :
  currentLineItems req = Some s ->
  JSON_parse s = Some VNull ->
  exists msg,
    parse_endpoint env req st
    = (Return (MkResponse 500 (VObj [("error", VStr msg)])), st).
Proof.
  intros Hcur Hs.
  assert (Hitems : current_items req = VNull).
  { unfold current_items. rewrite Hcur.
    destruct s; [vm_compute in Hs; discriminate|]. simpl. rewrite Hs. reflexivity. }
  unfold parse_endpoint, try_catch, parse_pipeline, build_result, before_await, bind, lift.
  rewrite Hitems. simpl. eexists. reflexivity.
Qed.

Lemma null_current_items_fails_witness :
  exists msg,
    parse_endpoint (answering (Some two_items_text))
      (MkParseRequest (Some "edit") None (Some " null ") None None
         [MkFile "uploads/a" "image/png"])
      (MkState empty_store {["uploads/a" := "abc"]} 0)
    = (Return (MkResponse 500 (VObj [("error", VStr msg)])),
       MkState empty_store {["uploads/a" := "abc"]} 0).
Proof.
  apply (null_current_items_fails (answering (Some two_items_text))
           (MkParseRequest (Some "edit") None (Some " null ") None None
              [MkFile "uploads/a" "image/png"])
           (MkState empty_store {["uploads/a" := "abc"]} 0) " null " eq_refl).
  vm_compute. reflexivity.
Defined.

(** X14.  On a store whose prototype was never replaced, GET of an
    identifier that holds no record answers 404 with the message Not found
    exactly when the identifier is not a property name of
    [Object.prototype]; for those names it answers 200. *)
Theorem unstored_identifier_answer id st :
  pristine (rfqStore st) ->
  own (rfqStore st) !! id = None ->
  (inherited_name id = false -> get_rfq id st = (Return not_found, st)) /\
  (inherited_name id = true ->
   exists v, get_rfq id st = (Return (MkResponse 200 v), st)) /\
  (fst (get_rfq id st) = Return not_found <-> inherited_name id = false).
Proof.
  intros Hproto Hown.
  split; [apply get_rfq_unknown; assumption|].
  split.
  - intros Hname. destruct (get_rfq_inherited id st Hproto Hown Hname) as (v & Hv & _). eauto.
  - split.
    + intros Hget. destruct (inherited_name id) eqn:Hname; [|reflexivity].
      destruct (get_rfq_inherited id st Hproto Hown Hname) as (v & Hv & _).
      rewrite Hv in Hget. simpl in Hget. discriminate.
    + intros Hname. rewrite (get_rfq_unknown id st Hproto Hown Hname). reflexivity.
Qed.

Lemma unstored_identifier_answer_witness :
  get_rfq "RFQ-9999" initial_state = (Return not_found, initial_state).
Proof.
  apply (proj1 (unstored_identifier_answer "RFQ-9999" initial_state eq_refl eq_refl)).
  reflexivity.
Defined.

(** * Uploaded files *)

Create HintDb keeps_disk discriminated.

Lemma keeps_disk_ret {A} (a : A) : keeps_disk (ret a).
Proof. intros st r st' H; inversion H; reflexivity. Qed.

Lemma keeps_disk_throw {A} n msg : keeps_disk (@throw A n msg).
Proof. intros st r st' H; inversion H; reflexivity. Qed.

Lemma keeps_disk_lift {A} (r : result A) : keeps_disk (lift r).
Proof. intros st r' st' H; inversion H; reflexivity. Qed.

Lemma keeps_disk_bind {A B} (m : M A) (k : A -> M B) :
  keeps_disk m -> (forall a, keeps_disk (k a)) -> keeps_disk (bind m k).
Proof.
  intros Hm Hk st r st'. unfold bind.
  destruct (m st) as [[a|e] st1] eqn:Hst.
  - intros H. apply Hk in H. apply Hm in Hst. congruence.
  - intros H; inversion H; subst. eapply Hm; eassumption.
Qed.

Lemma keeps_disk_Date_now env : keeps_disk (Date_now env).
Proof. intros st r st' H; inversion H; reflexivity. Qed.

Lemma keeps_disk_settle outcome : keeps_disk (settle outcome).
Proof. destruct outcome; simpl; [apply keeps_disk_ret | apply keeps_disk_throw]. Qed.

Lemma keeps_disk_JSON_parse s : keeps_disk (JSON_parse_or_throw s).
Proof.
  unfold JSON_parse_or_throw.
  destruct (JSON_parse s); [apply keeps_disk_ret | apply keeps_disk_throw].
Qed.

Lemma keeps_disk_store_result id result : keeps_disk (store_result id result).
Proof. intros st r st' H; inversion H; reflexivity. Qed.

#[global] Hint Resolve keeps_disk_ret keeps_disk_throw keeps_disk_lift keeps_disk_Date_now
  keeps_disk_settle keeps_disk_JSON_parse keeps_disk_store_result : keeps_disk.
#[global] Hint Extern 2 (keeps_disk (bind _ _)) => apply keeps_disk_bind; [|intros]
  : keeps_disk.

Lemma keeps_disk_line_item env li idx : keeps_disk (line_item env li idx).
Proof.
  unfold line_item. apply keeps_disk_bind; [auto with keeps_disk|]. intros raw.
  apply keeps_disk_bind; [|auto with keeps_disk].
  destruct (truthy raw); auto with keeps_disk.
Qed.

#[global] Hint Resolve keeps_disk_line_item : keeps_disk.

Lemma keeps_disk_map_from env elements :
  forall idx, keeps_disk (map_from env idx elements).
Proof. induction elements; simpl; intros; auto 10 with keeps_disk. Qed.

#[global] Hint Resolve keeps_disk_map_from : keeps_disk.

Lemma keeps_disk_reconcile_items env parsedData :
  keeps_disk (reconcile_items env parsedData).
Proof.
  unfold reconcile_items, map_line_items.
  apply keeps_disk_bind; [auto with keeps_disk|]. intros li.
  destruct (js_or li (VArr [])); auto with keeps_disk.
Qed.

Lemma keeps_disk_choose_rfq_id env req : keeps_disk (choose_rfq_id env req).
Proof.
  unfold choose_rfq_id.
  destruct (rfqId req) as [s|]; [destruct (string_is_empty s)|]; auto 10 with keeps_disk.
Qed.

#[global] Hint Resolve keeps_disk_reconcile_items keeps_disk_choose_rfq_id : keeps_disk.

Lemma keeps_disk_after_await env req outcome : keeps_disk (after_await env req outcome).
Proof. unfold after_await. auto 20 with keeps_disk. Qed.

(** What reading and deleting the uploads leaves, when every one of them
    could be read. *)
Lemma process_files_return uploads : forall st parts st',
  process_files uploads st = (Return parts, st') ->
  length parts = length uploads /\
  (forall i f, uploads !! i = Some f ->
     exists data, disk st !! path f = Some data /\
                  parts !! i = Some (base64 data, mimetype f)) /\
  (forall f, f ∈ uploads -> disk st' !! path f = None) /\
  (forall p, (forall f, f ∈ uploads -> path f <> p) -> disk st' !! p = disk st !! p).
Proof.
  induction uploads as [|f rest IH]; simpl; intros st parts st' H.
  - apply ret_return in H as [-> ->]. split; [reflexivity|].
    split; [intros i f Hi; discriminate|].
    split; [intros f Hf; inversion Hf | reflexivity].
  - apply bind_return in H as (part & st1 & Hpart & H).
    apply bind_return in H as ([] & st2 & Hunlink & H).
    apply bind_return in H as (parts' & st3 & Hrest & H).
    apply ret_return in H as [-> ->].
    unfold fileToGenerativePart in Hpart.
    apply bind_return in Hpart as (data & st0 & Hread & Hpart).
    apply ret_return in Hpart as [-> ->].
    unfold readFileSync in Hread.
    destruct (disk st !! path f) as [data'|] eqn:Hf; [|discriminate].
    inversion Hread; subst data' st0; clear Hread.
    unfold unlinkSync in Hunlink. rewrite Hf in Hunlink.
    inversion Hunlink; subst st2; clear Hunlink.
    apply IH in Hrest as (Hlen & Hparts & Hgone & Hother).
    simpl in Hparts, Hother.
    assert (Hdistinct : forall g, g ∈ rest -> path g <> path f).
    { intros g Hg Heq. apply list_elem_of_lookup in Hg as [i Hi].
      destruct (Hparts i g Hi) as (d & Hd & _).
      rewrite Heq, lookup_delete_eq in Hd. discriminate. }
    split; [simpl; congruence|]. split; [|split].
    + intros [|i] g Hi; simpl in *.
      * inversion Hi; subst g. eauto.
      * destruct (Hparts i g Hi) as (d & Hd & Hp).
        exists d. split; [|exact Hp].
        rewrite lookup_delete_ne in Hd; [exact Hd|].
        apply not_eq_sym, Hdistinct. apply list_elem_of_lookup. eauto.
    + intros g Hg. apply elem_of_cons in Hg as [->|Hg]; [|apply Hgone, Hg].
      rewrite Hother by (intros g Hg; apply Hdistinct, Hg).
      apply lookup_delete_eq.
    + intros p Hp. rewrite Hother by (intros g Hg; apply Hp; right; exact Hg).
      apply lookup_delete_ne. apply Hp. left.
Qed.

(** X15.  Once the uploads of a parse/edit request have all been read, they
    are gone from disk whatever happens next, also when the extraction
    call or the parsing of its output then fails; every upload was sent in
    order as base64 data with its media type, and no other file was
    touched. *)
Theorem uploads_deleted_once_read env req st g st1 resp st' :
  before_await env req st = (Return g, st1) ->
  parse_endpoint env req st = (Return resp, st') ->
  length (g_parts g) = length (files req) /\
  (forall i f, files req !! i = Some f ->
     exists data, disk st !! path f = Some data /\
                  g_parts g !! i = Some (base64 data, mimetype f)) /\
  (forall f, f ∈ files req -> disk st' !! path f = None) /\
  (forall p, (forall f, f ∈ files req -> path f <> p) -> disk st' !! p = disk st !! p).
Proof.
  intros Hbefore H.
  assert (Hdisk : disk st' = disk st1).
  { unfold parse_endpoint, try_catch, parse_pipeline, build_result, bind in H.
    rewrite Hbefore in H.
    destruct (after_await env req (generateContent env g) st1)
      as [[result|e] st2] eqn:Hafter.
    - unfold store_result, res_json, bind, JSON_stringify, ret in H. simpl in H.
      destruct (unserializable env ResponseBody (VObj (snd result)));
        inversion H; subst; simpl;
        apply (keeps_disk_after_await _ _ _ _ _ _ Hafter).
    - unfold ret in H. inversion H; subst.
      apply (keeps_disk_after_await _ _ _ _ _ _ Hafter). }
  apply before_await_return in Hbefore as (edit & parts & _ & _ & Hparts & ->).
  rewrite Hdisk. simpl. apply process_files_return. exact Hparts.
Qed.

Lemma uploads_deleted_once_read_witness :
  exists resp st',
    parse_endpoint (MkEnv (fun _ => 5%Z) (fun _ => Rejected "quota") (fun _ => Return false)
              (room_for engine_room))
      (MkParseRequest (Some "a pipe") None None None None [MkFile "uploads/a" "image/png"])
      (MkState empty_store {["uploads/a" := "abc"]} 0)
    = (Return resp, st') /\
    status resp = 500 /\
    disk st' !! "uploads/a" = None.
Proof.
  eexists _, _. split; [vm_compute; reflexivity|]. split; [reflexivity|].
  eassert (Hbefore :
             before_await
               (MkEnv (fun _ => 5%Z) (fun _ => Rejected "quota") (fun _ => Return false)
              (room_for engine_room))
               (MkParseRequest (Some "a pipe") None None None None
                  [MkFile "uploads/a" "image/png"])
               (MkState empty_store {["uploads/a" := "abc"]} 0) = (Return _, _))
    by (vm_compute; reflexivity).
  destruct (uploads_deleted_once_read _ _ _ _ _ _ _ Hbefore eq_refl)
    as (_ & _ & Hgone & _).
  apply (Hgone (MkFile "uploads/a" "image/png")). left.
Defined.

(** Reading the uploads stops at the first one that is not on disk when its
    turn comes. *)
Lemma process_files_stops before : forall st parts st1 f after,
  process_files before st = (Return parts, st1) ->
  disk st1 !! path f = None ->
  exists e, process_files (before ++ f :: after) st = (Throw e, st1).
Proof.
  induction before as [|f0 rest IH]; simpl; intros st parts st1 f after H Hf.
  - apply ret_return in H as [_ ->].
    unfold bind, fileToGenerativePart, bind, readFileSync. rewrite Hf. eauto.
  - apply bind_return in H as (part & sta & Hpart & H).
    apply bind_return in H as (u & stb & Hunlink & H).
    apply bind_return in H as (parts' & stc & Hrest & H).
    apply ret_return in H as [_ ->].
    destruct (IH _ _ _ f after Hrest Hf) as (e & He).
    exists e. unfold bind at 1. rewrite Hpart.
    unfold bind at 1. rewrite Hunlink.
    unfold bind at 1. rewrite He. reflexivity.
Qed.

(** X16.  In a request that reaches the upload loop (its mode test does
    not throw and, in edit mode, [JSON.stringify] can print the current
    items for the prompt), if an upload is not on disk when its turn comes
    (it is missing, or an earlier upload had the same path and was
    deleted), the request fails with status 500 whatever the extraction
    service would answer; the uploads before it have already been deleted,
    and nothing else on disk, the later uploads included, has been
    touched. *)
Theorem unreadable_upload_fails env req st edit before f after parts st1 :
  files req = (before ++ f :: after)%list ->
  length_positive env (current_items req) = Return edit ->
  (edit = true -> unserializable env PromptItems (current_items req) = false) ->
  process_files before st = (Return parts, st1) ->
  disk st1 !! path f = None ->
  (exists msg,
     parse_endpoint env req st
     = (Return (MkResponse 500 (VObj [("error", VStr msg)])), st1)) /\
  (forall g, g ∈ before -> disk st1 !! path g = None) /\
  (forall p, (forall g, g ∈ before -> path g <> p) -> disk st1 !! p = disk st !! p).
Proof.
  intros Hfiles Hedit Hprompt Hbefore Hf.
  destruct (process_files_stops before st parts st1 f after Hbefore Hf) as (e & He).
  apply process_files_return in Hbefore as (_ & _ & Hgone & Hother).
  split; [|split; assumption].
  exists (message e).
  unfold parse_endpoint, try_catch, parse_pipeline, build_result, bind.
  rewrite (before_await_mode env req st edit Hedit Hprompt), Hfiles, He. reflexivity.
Qed.

Lemma unreadable_upload_fails_witness :
  exists msg,
    parse_endpoint (answering (Some two_items_text))
      (MkParseRequest (Some "a pipe") None None None None
         [MkFile "uploads/a" "image/png"; MkFile "uploads/a" "image/png";
          MkFile "uploads/b" "application/pdf"])
      (MkState empty_store {["uploads/a" := "abc"; "uploads/b" := "def"]} 0)
    = (Return (MkResponse 500 (VObj [("error", VStr msg)])),
       MkState empty_store {["uploads/b" := "def"]} 0).
Proof.
  destruct (unreadable_upload_fails (answering (Some two_items_text))
              (MkParseRequest (Some "a pipe") None None None None
                 [MkFile "uploads/a" "image/png"; MkFile "uploads/a" "image/png";
                  MkFile "uploads/b" "application/pdf"])
              (MkState empty_store {["uploads/a" := "abc"; "uploads/b" := "def"]} 0)
              false [MkFile "uploads/a" "image/png"] (MkFile "uploads/a" "image/png")
              [MkFile "uploads/b" "application/pdf"]
              [(base64 "abc", "image/png")]
              (MkState empty_store {["uploads/b" := "def"]} 0)
              eq_refl eq_refl) as [Hfail _].
  - discriminate.
  - vm_compute. reflexivity.
  - vm_compute. reflexivity.
  - exact Hfail.
Defined.

(** * Generated record identifiers *)

Lemma pretty_N_go_suffix x : forall s, exists p, pretty_N_go x s = p ++ s.
Proof.
  induction (N.lt_wf_0 x) as [x _ IH]; intros s.
  destruct (decide (x = 0)%N) as [->|Hx].
  - exists EmptyString. rewrite pretty_N_go_0. reflexivity.
  - rewrite pretty_N_go_step by lia.
    destruct (IH (x `div` 10)%N ltac:(apply N.div_lt; lia)
                 (String (pretty_N_char (x `mod` 10)) s)) as [p Hp].
    exists (p ++ String (pretty_N_char (x `mod` 10)) EmptyString).
    rewrite Hp. generalize (pretty_N_char (x `mod` 10)). clear. intros d.
    induction p as [|c p IHp]; [reflexivity|].
    change (String c (p ++ String d s) = String c ((p ++ String d EmptyString) ++ s)).
    f_equal. exact IHp.
Qed.

Lemma slice_last_suffix p a b c d :
  slice_last 4 (p ++ String a (String b (String c (String d EmptyString))))
  = String a (String b (String c (String d EmptyString))).
Proof.
  unfold slice_last.
  assert (Hlen : forall q s, String.length (q ++ s) = String.length q + String.length s).
  { induction q as [|x q IHq]; intros s; simpl; [reflexivity|]. rewrite IHq. reflexivity. }
  rewrite Hlen. simpl String.length.
  replace (String.length p + 4 - 4) with (String.length p) by lia.
  induction p as [|x p IHp]; [reflexivity|]. simpl. exact IHp.
Qed.

(** The last four characters of a clock reading of at least four digits
    are the digits of its remainder modulo 10000. *)
Lemma last_four_digits (t : Z) :
  (1000 <= t)%Z ->
  slice_last 4 (pretty t)
  = String (pretty_N_char (Z.to_N ((t / 1000) mod 10)))
      (String (pretty_N_char (Z.to_N ((t / 100) mod 10)))
         (String (pretty_N_char (Z.to_N ((t / 10) mod 10)))
            (String (pretty_N_char (Z.to_N (t mod 10))) EmptyString))).
Proof.
  intros Ht. destruct t as [|p|p]; try lia.
  change (pretty (Z.pos p)) with (pretty (N.pos p)).
  unfold pretty, pretty_N. destruct (decide (N.pos p = 0)%N) as [|_]; [lia|].
  set (x := N.pos p). assert (Hx : (1000 <= x)%N) by (unfold x; lia).
  assert (Hz : Z.pos p = Z.of_N x) by reflexivity. rewrite Hz. clearbody x. clear Hz Ht p.
  rewrite pretty_N_go_step by lia.
  rewrite pretty_N_go_step by (apply N.div_str_pos; lia).
  rewrite pretty_N_go_step
    by (apply N.div_str_pos; split; [lia|]; apply N.div_le_lower_bound; lia).
  rewrite pretty_N_go_step
    by (apply N.div_str_pos; split; [lia|]; apply N.div_le_lower_bound; [lia|];
        apply N.div_le_lower_bound; lia).
  match goal with
  | |- context [pretty_N_go ?y ?s] => destruct (pretty_N_go_suffix y s) as [q Hq]
  end.
  rewrite Hq, slice_last_suffix.
  rewrite !N.Div0.div_div.
  repeat f_equal; zify; Z.to_euclidean_division_equations; lia.
Qed.

Lemma pretty_N_char_inj d d' :
  (d < 10)%N -> (d' < 10)%N -> pretty_N_char d = pretty_N_char d' -> d = d'.
Proof.
  intros Hd Hd'.
  assert (Hcases : forall x, (x < 10)%N ->
            x = 0%N \/ x = 1%N \/ x = 2%N \/ x = 3%N \/ x = 4%N \/
            x = 5%N \/ x = 6%N \/ x = 7%N \/ x = 8%N \/ x = 9%N) by (intros; lia).
  destruct (Hcases d Hd) as [->|[->|[->|[->|[->|[->|[->|[->|[->| ->]]]]]]]]];
    destruct (Hcases d' Hd') as [->|[->|[->|[->|[->|[->|[->|[->|[->| ->]]]]]]]]];
    intros H; first [reflexivity | discriminate H].
Qed.

(** The identifier of a request that names none, and the clock reading
    it is made of. *)
Lemma choose_rfq_id_generated env req st :
  without_rfq_id req = true ->
  fst (choose_rfq_id env req st)
  = Return ("RFQ-" ++ slice_last 4 (pretty (now env (ticks st)))).
Proof.
  unfold without_rfq_id, choose_rfq_id. intros H.
  destruct (rfqId req) as [s|]; [rewrite H|]; reflexivity.
Qed.

(** X17.  An identifier made by the server carries only the last four
    digits of the clock: two requests that name no [rfqId] get the same
    identifier exactly when their clock readings (of four digits or more)
    agree modulo 10000, whatever else differs between them. *)
Theorem generated_rfq_id_modulo env env' req req' st st' :
  without_rfq_id req = true ->
  without_rfq_id req' = true ->
  (1000 <= now env (ticks st))%Z ->
  (1000 <= now env' (ticks st'))%Z ->
  fst (choose_rfq_id env req st) = fst (choose_rfq_id env' req' st')
  <-> (now env (ticks st) mod 10000 = now env' (ticks st') mod 10000)%Z.
Proof.
  intros Hreq Hreq' Ht Ht'.
  rewrite (choose_rfq_id_generated env req st Hreq),
    (choose_rfq_id_generated env' req' st' Hreq').
  rewrite (last_four_digits _ Ht), (last_four_digits _ Ht').
  set (t := now env (ticks st)) in *. set (t' := now env' (ticks st')) in *.
  clearbody t t'. split.
  - intros H. inversion H as [[H3 H2 H1 H0]].
    apply pretty_N_char_inj in H3, H2, H1, H0;
      zify; Z.to_euclidean_division_equations; lia.
  - intros H.
    replace ((t' / 1000) mod 10)%Z with ((t / 1000) mod 10)%Z
      by (zify; Z.to_euclidean_division_equations; lia).
    replace ((t' / 100) mod 10)%Z with ((t / 100) mod 10)%Z
      by (zify; Z.to_euclidean_division_equations; lia).
    replace ((t' / 10) mod 10)%Z with ((t / 10) mod 10)%Z
      by (zify; Z.to_euclidean_division_equations; lia).
    replace (t' mod 10)%Z with (t mod 10)%Z
      by (zify; Z.to_euclidean_division_equations; lia).
    reflexivity.
Qed.

Lemma generated_rfq_id_modulo_witness :
  fst (choose_rfq_id {| now := fun _ => 1700000000123%Z;
                        generateContent := fun _ => Fulfilled None;
                        coerced_positive := fun _ => Return false;
                        unserializable := room_for engine_room |}
         (creating "a pipe") initial_state)
  = fst (choose_rfq_id {| now := fun _ => 1700000010123%Z;
                          generateContent := fun _ => Rejected "down";
                          coerced_positive := fun _ => Return false;
                          unserializable := fun _ _ => true |}
           (MkParseRequest None None None None (Some EmptyString) []) initial_state).
Proof.
  apply generated_rfq_id_modulo; [reflexivity | reflexivity | simpl; lia | simpl; lia |].
  reflexivity.
Defined.

(** * The mapping, item by item *)

(** X18.  The mapping makes one record per extracted item, in the order of
    the extraction: the [quantity] and [uom] of the i-th record are those of
    the i-th extracted item as they are, its [description] and
    [material_grade] are the extracted ones or the empty string, and the
    extracted [product_type] is not carried over. *)
Theorem line_items_copied_in_order env parsedData st items st' :
  reconcile_items env parsedData st = (Return items, st') ->
  length items = length (raw_items parsedData) /\
  forall i li, raw_items parsedData !! i = Some li ->
    exists item,
      items !! i = Some item /\
      opt_get item "quantity" = opt_get li "quantity" /\
      opt_get item "uom" = opt_get li "uom" /\
      opt_get item "description" = js_or (opt_get li "description") (VStr EmptyString) /\
      opt_get item "material_grade"
      = js_or (opt_get li "material_grade") (VStr EmptyString) /\
      opt_get item "product_type" = VUndefined.
Proof.
  intros H. apply reconcile_items_lookup in H as [Hlen H].
  split; [exact Hlen|]. intros i li Hli.
  destruct (H i li Hli) as (id & Hitem & _).
  exists (item_record id li i). split; [exact Hitem|].
  repeat split; reflexivity.
Qed.

Lemma line_items_copied_in_order_witness :
  exists parsedData items st',
    JSON_parse two_items_text = Some parsedData /\
    reconcile_items (answering None) parsedData initial_state = (Return items, st') /\
    length items = 2 /\
    exists item,
      items !! 1 = Some item /\
      opt_get item "quantity" = VNum (Finite (inject_Z 5)) /\
      opt_get item "uom" = VUndefined /\
      opt_get item "description" = VStr EmptyString /\
      opt_get item "product_type" = VUndefined.
Proof.
  exists (VObj [("line_items",
                 VArr [VObj [("item_id", VStr "a")];
                       VObj [("quantity", VNum (Finite (inject_Z 5)))]])]).
  eexists _, _. split; [vm_compute; reflexivity|].
  split; [vm_compute; reflexivity|].
  destruct (line_items_copied_in_order (answering None)
              (VObj [("line_items",
                      VArr [VObj [("item_id", VStr "a")];
                            VObj [("quantity", VNum (Finite (inject_Z 5)))]])])
              initial_state _ _ eq_refl)
    as [Hlen Hitems].
  split; [exact Hlen|].
  destruct (Hitems 1 _ eq_refl) as (item & Hitem & Hq & Hu & Hd & _ & Hp).
  exists item. repeat split; assumption.
Defined.

(** * Records sent and mapped again *)

Lemma lookup_field_absent k fields :
  ~ In k (field_names fields) -> lookup_field k fields = None.
Proof.
  induction fields as [|[k' v] rest IH]; simpl; [reflexivity|]. intros Hn.
  destruct (String.eqb k k') eqn:Hk.
  - apply String.eqb_eq in Hk. subst. tauto.
  - apply IH. tauto.
Qed.

(** A property of the printed object is the printed property of the
    object, when no name occurs twice. *)
Lemma lookup_field_kept k fields :
  NoDup (field_names fields) ->
  lookup_field k (kept fields) = lookup_field k fields ≫= serialized.
Proof.
  induction fields as [|[k' v] rest IH]; intros Hnd; [reflexivity|].
  apply NoDup_cons in Hnd as [Hk' Hnd].
  destruct (serialized v) as [y|] eqn:Hv.
  - rewrite (kept_cons_some _ _ _ _ Hv). simpl.
    destruct (String.eqb k k'); [simpl; rewrite Hv; reflexivity | apply IH; exact Hnd].
  - rewrite (kept_cons_none _ _ _ Hv), (IH Hnd). simpl.
    destruct (String.eqb k k') eqn:Hk; [|reflexivity].
    apply String.eqb_eq in Hk. subst k'.
    rewrite lookup_field_absent; [simpl; rewrite Hv; reflexivity|].
    intros Hin. apply Hk'. apply list_elem_of_In. exact Hin.
Qed.

(** The printed form of a produced item has a [size] with the keys
    outer_diameter, wall_thickness and length only: no other key can be
    read from it. *)
Lemma printed_item_size id li idx key :
  ~ In key ["outer_diameter"; "wall_thickness"; "length"] ->
  raw_size (VObj (kept [("item_id", id);
                        ("line", number_of_nat (idx + 1));
                        ("description", js_or (opt_get li "description") (VStr EmptyString));
                        ("material_grade",
                          js_or (opt_get li "material_grade") (VStr EmptyString));
                        ("size",
                          VObj [("outer_diameter",
                                  dimension (opt_get li "size") "od_val" "od_unit");
                                ("wall_thickness",
                                  dimension (opt_get li "size") "wt_val" "wt_unit");
                                ("length",
                                  dimension (opt_get li "size") "len_val" "len_unit")]);
                        ("quantity", opt_get li "quantity");
                        ("uom", opt_get li "uom")])) key
  = VUndefined.
Proof.
  intros Hkey. unfold raw_size.
  rewrite opt_get_obj, lookup_field_kept
    by (repeat (apply NoDup_cons_2;
                  [intros Hin%list_elem_of_In; simpl in Hin; intuition discriminate|]);
        apply NoDup_nil_2).
  match goal with
  | |- context [lookup_field "size" ?F] =>
      change (lookup_field "size" F)
        with (Some (VObj [("outer_diameter",
                            dimension (opt_get li "size") "od_val" "od_unit");
                          ("wall_thickness",
                            dimension (opt_get li "size") "wt_val" "wt_unit");
                          ("length",
                            dimension (opt_get li "size") "len_val" "len_unit")]))
  end.
  match goal with
  | |- context [Some ?x ≫= serialized] => change (Some x ≫= serialized) with (serialized x)
  end.
  rewrite serialized_obj.
  match goal with
  | |- context [default VUndefined (Some ?w)] => change (default VUndefined (Some w)) with w
  end.
  rewrite opt_get_obj, lookup_field_kept
    by (repeat (apply NoDup_cons_2;
                  [intros Hin%list_elem_of_In; simpl in Hin; intuition discriminate|]);
        apply NoDup_nil_2).
  rewrite lookup_field_absent by exact Hkey. reflexivity.
Qed.

(** X19.  The records the item mapping makes are not in the shape it reads.
    When the items of an answer, as [res.json] prints them, are mapped once
    more (as when an extraction echoes the current items it was given), the
    mapping succeeds, with one record per item and the same line numbers;
    an identifier is kept where its printed form is truthy, the printed
    quantity and unit of measure are kept, but every dimension is left
    without value and without unit. *)
Theorem echoed_items_lose_dimensions env parsedData st items st1 witems :
  reconcile_items env parsedData st = (Return items, st1) ->
  serialized (VArr items) = Some (VArr witems) ->
  exists items' st2,
    reconcile_items env (VObj [("line_items", VArr witems)]) st1 = (Return items', st2) /\
    length items' = length items /\
    forall i item, items !! i = Some item ->
      exists witem item',
        serialized item = Some witem /\
        witems !! i = Some witem /\
        items' !! i = Some item' /\
        line_of item' = line_of item /\
        (truthy (item_id_of witem) = true -> item_id_of item' = item_id_of witem) /\
        opt_get item' "quantity" = opt_get witem "quantity" /\
        opt_get item' "uom" = opt_get witem "uom" /\
        forall field sources, In (field, sources) dimension_sources ->
          value_of (dimension_of item' field) = VUndefined /\
          unit_of (dimension_of item' field) = VUndefined.
Proof.
  intros H Hs.
  change (serialized (VArr items))
    with (Some (VArr ((fun x => default VNull (serialized x)) <$> items))) in Hs.
  assert (Hw : (fun x => default VNull (serialized x)) <$> items = witems) by congruence.
  clear Hs.
  apply reconcile_items_lookup in H as [Hlen H].
  assert (Hrecords : forall i item, items !! i = Some item ->
            exists id li, item = item_record id li i).
  { intros i item Hi.
    destruct (lookup_lt_is_Some_2 (raw_items parsedData) i) as [li Hli].
    { rewrite <- Hlen. apply lookup_lt_is_Some_1. eauto. }
    destruct (H i li Hli) as (id & Hitem & _).
    rewrite Hi in Hitem. inversion Hitem; subst. eauto. }
  assert (Hprinted : forall i item, items !! i = Some item ->
            exists fields, serialized item = Some (VObj fields) /\
                           witems !! i = Some (VObj fields)).
  { assert (Hsome : forall x w, serialized x = Some w ->
              (fun y => default VNull (serialized y)) <$> Some x = Some w)
      by (intros x w Hx; simpl; rewrite Hx; reflexivity).
    intros i item Hi. destruct (Hrecords i item Hi) as (id & li & ->).
    eexists. split; [apply serialized_obj|].
    rewrite <- Hw, list_lookup_fmap, Hi. apply Hsome, serialized_obj. }
  assert (Hmap : mappable (VObj [("line_items", VArr witems)]) = true).
  { change (forallb (fun li => negb (is_nullish li)) witems = true).
    apply forallb_forall. intros w Hin.
    apply list_elem_of_In, list_elem_of_lookup in Hin as [i Hi].
    destruct (lookup_lt_is_Some_2 items i) as [item Hitem].
    { rewrite <- (length_fmap (fun x => default VNull (serialized x)) items), Hw.
      eapply lookup_lt_Some. exact Hi. }
    destruct (Hprinted i item Hitem) as (fields & _ & Hwi).
    rewrite Hi in Hwi. inversion Hwi; subst. reflexivity. }
  destruct (reconcile_items_total env _ st1 Hmap) as (items' & st2 & Hrun).
  exists items', st2. split; [exact Hrun|].
  apply reconcile_items_lookup in Hrun as [Hlen' Hrun].
  change (raw_items (VObj [("line_items", VArr witems)])) with witems in Hlen', Hrun.
  split; [rewrite Hlen', <- Hw, length_fmap; reflexivity|].
  intros i item Hi.
  destruct (Hrecords i item Hi) as (id & li & ->).
  destruct (Hprinted i _ Hi) as (fields & Hser & Hwi).
  unfold item_record in Hser. rewrite serialized_obj in Hser. inversion Hser as [Hfields].
  destruct (Hrun i _ Hwi) as (id' & Hitem' & Hid').
  eexists _, _. split; [apply serialized_obj|]. unfold item_record at 1.
  rewrite Hfields. split; [exact Hwi|]. split; [exact Hitem'|].
  split; [reflexivity|]. split.
  { intros Htruthy. rewrite item_id_of_record.
    destruct Hid' as [[_ ->]|[Hfalsy _]]; [reflexivity | congruence]. }
  split; [reflexivity|]. split; [reflexivity|].
  intros field sources Hin. destruct sources as [val_key unit_key].
  destruct (dimension_copied id' (VObj fields) i field val_key unit_key Hin) as [-> ->].
  rewrite <- Hfields.
  unfold dimension_sources in Hin. simpl in Hin.
  destruct Hin as [Hin|[Hin|[Hin|[]]]]; inversion Hin; subst;
    split; apply printed_item_size; simpl; intuition discriminate.
Qed.

Lemma echoed_items_lose_dimensions_witness :
  exists items witems items' st2,
    reconcile_items (answering None) furlong_output initial_state
    = (Return items, MkState empty_store ∅ 1) /\
    serialized (VArr items) = Some (VArr witems) /\
    reconcile_items (answering None) (VObj [("line_items", VArr witems)])
      (MkState empty_store ∅ 1)
    = (Return items', st2) /\
    (value_of <$> ((fun item => dimension_of item "outer_diameter") <$> witems))
    = [VNum (Finite (inject_Z 10))] /\
    (value_of <$> ((fun item => dimension_of item "outer_diameter") <$> items'))
    = [VUndefined].
Proof.
  destruct (echoed_items_lose_dimensions (answering None) furlong_output initial_state
              _ _ _ eq_refl eq_refl) as (items' & st2 & Hrun & _).
  eexists _, _, items', st2. split; [vm_compute; reflexivity|].
  split; [vm_compute; reflexivity|]. split; [exact Hrun|].
  vm_compute in Hrun. inversion Hrun; subst. split; vm_compute; reflexivity.
Defined.

(** * What the form fields reach *)

Lemma after_await_rfqId env req req' outcome :
  rfqId req = rfqId req' -> after_await env req outcome = after_await env req' outcome.
Proof.
  intros Hid. unfold after_await, choose_rfq_id. rewrite Hid. reflexivity.
Qed.

(** X20.  The form fields [text], [projectName], [lang] and
    [currentLineItems] reach the record only through the request handed to
    the extraction service: two requests with the same [rfqId] and uploads,
    whose mode tests do not throw, whose prompts can be built (in edit
    mode [JSON.stringify] can print the current items) and whose
    extraction requests get the same outcome, are answered alike and leave
    the same state, whatever those four fields hold. *)
Theorem form_fields_reach_only_the_service env req req' st edit edit' :
  rfqId req = rfqId req' ->
  files req = files req' ->
  length_positive env (current_items req) = Return edit ->
  (edit = true -> unserializable env PromptItems (current_items req) = false) ->
  length_positive env (current_items req') = Return edit' ->
  (edit' = true -> unserializable env PromptItems (current_items req') = false) ->
  (forall parts,
     generateContent env (gen_request req edit parts)
     = generateContent env (gen_request req' edit' parts)) ->
  parse_endpoint env req st = parse_endpoint env req' st.
Proof.
  intros Hid Hfiles Hedit Hprompt Hedit' Hprompt' Hgen.
  unfold parse_endpoint, parse_pipeline, build_result, try_catch, bind.
  rewrite (before_await_mode env req st edit Hedit Hprompt),
    (before_await_mode env req' st edit' Hedit' Hprompt'), Hfiles.
  destruct (process_files (files req') st) as [[parts|e] st1]; [|reflexivity].
  rewrite (Hgen parts), (after_await_rfqId env req req' _ Hid). reflexivity.
Qed.

Lemma form_fields_reach_only_the_service_witness :
  parse_endpoint (answering (Some two_items_text)) (creating "a pipe") initial_state
  = parse_endpoint (answering (Some two_items_text))
      (MkParseRequest (Some "drop line 1") (Some "Refinery") (Some one_prior_item_text)
         (Some "zh") None [])
      initial_state.
Proof.
  apply (form_fields_reach_only_the_service (answering (Some two_items_text))
           (creating "a pipe")
           (MkParseRequest (Some "drop line 1") (Some "Refinery") (Some one_prior_item_text)
              (Some "zh") None [])
           initial_state false true eq_refl eq_refl eq_refl).
  - discriminate.
  - vm_compute. reflexivity.
  - intros _. vm_compute. reflexivity.
  - intros parts. reflexivity.
Defined.

(** * Current items and the mode *)

Lemma current_items_parsed req s v :
  currentLineItems req = Some s -> JSON_parse s = Some v -> current_items req = v.
Proof.
  intros Hcur Hs. unfold current_items. rewrite Hcur.
  destruct s; [vm_compute in Hs; discriminate|]. simpl. rewrite Hs. reflexivity.
Qed.

(** X21.  When [currentLineItems] is the JSON text of an array, the mode
    follows its length and the prompt follows what [JSON.stringify] can
    print.  An empty array gives a creation request without current items.
    A non-empty array that can be printed gives an edit request which
    carries the parsed array as it is.  In both cases the uploads are read
    next.  A non-empty array that cannot be printed (one nested too
    deeply) ends the request at the prompt: the answer is the error with
    status 500 and nothing has happened, no upload read or deleted, no
    extraction call, nothing stored. *)
Theorem array_payload_sets_mode env req st s prior :
  currentLineItems req = Some s ->
  JSON_parse s = Some (VArr prior) ->
  (prior = [] \/ unserializable env PromptItems (VArr prior) = false ->
   forall parts st1,
     process_files (files req) st = (Return parts, st1) ->
     exists g,
       before_await env req st = (Return g, st1) /\
       g_editing g = negb (Nat.eqb (length prior) 0) /\
       g_current_items g
       = (if Nat.eqb (length prior) 0 then None else Some (VArr prior)) /\
       g_parts g = parts) /\
  (prior <> [] -> unserializable env PromptItems (VArr prior) = true ->
   before_await env req st = (Throw stack_overflow, st) /\
   parse_endpoint env req st = (Return (error_response stack_overflow), st)).
Proof.
  intros Hcur Hs.
  pose proof (current_items_parsed req s _ Hcur Hs) as Hitems.
  assert (Hedit : length_positive env (current_items req)
                  = Return (negb (Nat.eqb (length prior) 0)))
    by (rewrite Hitems; reflexivity).
  split.
  - intros Hprompt parts st1 Hparts. eexists. split.
    + rewrite (before_await_mode env req st _ Hedit).
      * rewrite Hparts. reflexivity.
      * rewrite Hitems. destruct Hprompt as [-> | Hprompt]; [discriminate | auto].
    + simpl. rewrite Hitems.
      destruct (Nat.eqb (length prior) 0); repeat split; reflexivity.
  - intros Hprior Hprompt.
    assert (Hmode : length_positive env (current_items req) = Return true).
    { rewrite Hedit. destruct prior; [congruence | reflexivity]. }
    rewrite <- Hitems in Hprompt.
    pose proof (before_await_overflow env req st Hmode Hprompt) as Hbefore.
    split; [exact Hbefore|].
    unfold parse_endpoint, try_catch, parse_pipeline, build_result, bind.
    rewrite Hbefore. reflexivity.
Qed.

Lemma array_payload_sets_mode_witness :
  exists g,
    before_await (answering None) (editing "drop line 1" one_prior_item_text) initial_state
    = (Return g, initial_state) /\
    g_editing g = true /\
    g_current_items g = Some (VArr [VObj [("item_id", VStr "a")]]).
Proof.
  destruct (array_payload_sets_mode (answering None)
              (editing "drop line 1" one_prior_item_text) initial_state
              one_prior_item_text [VObj [("item_id", VStr "a")]]
              eq_refl eq_refl) as [Hready _].
  destruct (Hready (or_intror eq_refl) [] initial_state eq_refl)
    as (g & Hg & Hmode & Hitems & _).
  exists g. repeat split; assumption.
Defined.

(** Current items nested deeper than [JSON.stringify] can print: the
    request fails at the prompt and its upload stays on disk. *)
Lemma deep_current_items_fail :
  fst (parse_endpoint (answering (Some two_items_text))
         (MkParseRequest (Some "drop line 1") None (Some (deep_items_text 100001)) None None
            [MkFile "uploads/a" "image/png"])
         (MkState empty_store {["uploads/a" := "abc"]} 0))
  = Return (error_response stack_overflow) /\
  disk (snd (parse_endpoint (answering (Some two_items_text))
               (MkParseRequest (Some "drop line 1") None (Some (deep_items_text 100001))
                  None None [MkFile "uploads/a" "image/png"])
               (MkState empty_store {["uploads/a" := "abc"]} 0))) !! "uploads/a"
  = Some "abc".
Proof. vm_compute. split; reflexivity. Qed.
